(** * llm_inference: output reshaping and trimming

    A shallow embedding of the authored logic of [llm_inference.py]:
    the command-line defaults of [InferenceArguments], and the static
    methods [LLM.reshape_model_outputs], [LLM.postprocess_model_outputs]
    and [LLM.set_max_memory], together with the Python built-ins they call
    ([int(a/b)], [range], slicing, indexing, [str.replace], [str.strip],
    [str.split], [math.floor]); and of [gather_complex_simple_sentences]
    of [prepare_HSplitcorpus.py].

    Python values are modelled as the interpreter has them: [int] as [Z],
    [str] as a sequence of Unicode code points, [list] as [list].  A call
    either returns or raises, and it may write records to the module
    logger; both effects are kept in the result type [Py]. *)

From Stdlib Require Import ZArith NArith QArith Lia String Ascii.
From Stdlib Require Import Floats.SpecFloat.
From Stdlib Require Import DecimalString.
From stdpp Require Import base option list gmap.

Open Scope Z_scope.

(** ** Effects: exceptions and the logger *)

(** The built-in exceptions the modelled code can raise. *)
Inductive exn : Type :=
  | ZeroDivisionError
  | ValueError
  | AssertionError
  | IndexError.

Inductive outcome (A : Type) : Type :=
  | Returns (a : A)
  | Raises (e : exn).
Arguments Returns {A} a.
Arguments Raises {A} e.

(** A Python string: the sequence of its code points. *)
Definition char : Type := N.
Definition str : Type := list char.

Inductive level : Type := INFO | WARNING.

(** A log record keeps the level and the values interpolated into the
    f-string of the call. *)
Inductive message : Type :=
  | MoreSequencesThanInputs (num_return_sequences input_batch_size : Z)
  | PotentiallyUnfinished (example_separator head tail : str).

Record log_record : Type := LogRecord { lvl : level; msg : message }.

(** A computation: its outcome and the records it logged, oldest first. *)
Definition Py (A : Type) : Type := (outcome A * list log_record)%type.

Definition ret {A} (a : A) : Py A := (Returns a, []).
Definition raise {A} (e : exn) : Py A := (Raises e, []).
Definition bind {A B} (m : Py A) (f : A -> Py B) : Py B :=
  match m with
  | (Returns a, l1) => let '(r, l2) := f a in (r, l1 ++ l2)
  | (Raises e, l1) => (Raises e, l1)
  end.

#[global] Instance Py_ret : MRet Py := @ret.
#[global] Instance Py_bind : MBind Py := fun A B f m => bind m f.

Definition logger_info (m : message) : Py unit := (Returns tt, [LogRecord INFO m]).
Definition logger_warning (m : message) : Py unit := (Returns tt, [LogRecord WARNING m]).

(** [assert c] *)
Definition assert (c : bool) : Py unit :=
  if c then mret tt else raise AssertionError.

(** [if c: body] for a body run for its effects only *)
Definition when (c : bool) (body : Py unit) : Py unit :=
  if c then body else mret tt.

(** [for x in xs: acc = body(acc, x)], the loop state passed explicitly *)
Fixpoint for_each {A S} (xs : list A) (body : S -> A -> Py S) (acc : S) : Py S :=
  match xs with
  | [] => mret acc
  | x :: xs' => acc' ← body acc x; for_each xs' body acc'
  end.

(** ** Built-ins on integers and lists *)

Definition len {A} (l : list A) : Z := Z.of_nat (length l).

(** [int(a / b)]: true division, then truncation toward zero.  The
    quotient of two integers below 2^53 in absolute value is rounded to a
    double whose integer part is the exact truncated quotient, and the
    operands here are a list length and a batch size. *)
Definition int_truediv (a b : Z) : Py Z :=
  if b =? 0 then raise ZeroDivisionError else mret (Z.quot a b).

(** The number of elements of [range(start, stop, step)] for a non-zero
    step, as CPython computes it. *)
Definition range_length (start stop step : Z) : Z :=
  let '(lo, hi, st) :=
    if 0 <? step then (start, stop, step) else (stop, start, - step) in
  if hi <=? lo then 0 else (hi - lo - 1) / st + 1.

(** [range(start, stop, step)], as the list a comprehension iterates. *)
Definition range (start stop step : Z) : Py (list Z) :=
  if step =? 0 then raise ValueError
  else mret ((fun j : nat => start + Z.of_nat j * step)
              <$> seq 0 (Z.to_nat (range_length start stop step))).

(** Clamping of a slice bound to [0, len]. *)
Definition slice_bound (n i : Z) : Z :=
  if i <? 0 then Z.max 0 (i + n) else Z.min i n.

(** [l[a:b]] *)
Definition slice {A} (l : list A) (a b : Z) : list A :=
  let lo := slice_bound (len l) a in
  let hi := slice_bound (len l) b in
  take (Z.to_nat (hi - lo)) (drop (Z.to_nat lo) l).

(** [l[i]] *)
Definition getitem {A} (l : list A) (i : Z) : Py A :=
  let j := if i <? 0 then i + len l else i in
  if (j <? 0) || (len l <=? j) then raise IndexError
  else match l !! Z.to_nat j with
       | Some x => mret x
       | None => raise IndexError
       end.

(** ** [LLM.reshape_model_outputs] *)

Definition reshape_chunks (outputs : list str) (num_return_sequences return_seqs_per_input : Z)
  : Py (list (list str)) :=
  idx ← range 0 num_return_sequences return_seqs_per_input;
  mret ((fun i => slice outputs i (i + return_seqs_per_input)) <$> idx).

Definition reshape_model_outputs (outputs : list str) (input_batch_size : Z)
  : Py (list (list str)) :=
  let num_return_sequences := len outputs in
  return_seqs_per_input ← int_truediv num_return_sequences input_batch_size;
  _ ← when (1 <? return_seqs_per_input)
        (logger_info (MoreSequencesThanInputs num_return_sequences input_batch_size));
  outputs ← reshape_chunks outputs num_return_sequences return_seqs_per_input;
  _ ← assert (len outputs =? input_batch_size);
  first ← getitem outputs 0;
  _ ← assert (len first =? return_seqs_per_input);
  mret outputs.

(** ** Built-ins on strings *)

(** [str.isspace] on one code point: the code points CPython lists as
    white space. *)
Definition isspace (c : char) : bool :=
  ((9 <=? c) && (c <=? 13) || (28 <=? c) && (c <=? 32)
   || (c =? 133) || (c =? 160) || (c =? 5760)
   || (8192 <=? c) && (c <=? 8202)
   || (c =? 8232) || (c =? 8233) || (c =? 8239) || (c =? 8287) || (c =? 12288))%N.

Fixpoint lstrip (s : str) : str :=
  match s with
  | c :: s' => if isspace c then lstrip s' else s
  | [] => []
  end.

Definition rstrip (s : str) : str := reverse (lstrip (reverse s)).

(** [s.strip()] *)
Definition strip (s : str) : str := rstrip (lstrip s).

(** [s.startswith(sub)] *)
Fixpoint startswith (s sub : str) : bool :=
  match sub, s with
  | [], _ => true
  | _ :: _, [] => false
  | c :: sub', d :: s' => (c =? d)%N && startswith s' sub'
  end.

(** [s.find(sub)]: the lowest index where [sub] starts, [None] for -1. *)
Fixpoint find (s sub : str) : option nat :=
  if startswith s sub then Some 0%nat
  else match s with
       | [] => None
       | _ :: s' => S <$> find s' sub
       end.

(** The scan of [s.replace(old, new)] for a non-empty [old]: each round
    cuts at the leftmost occurrence and goes on behind it.  A round
    consumes at least one code point, so [length s] rounds are enough. *)
Fixpoint replace_from (fuel : nat) (s old new : str) : str :=
  match fuel with
  | O => s
  | S fuel' =>
      match find s old with
      | None => s
      | Some i => take i s ++ new ++ replace_from fuel' (drop (i + length old) s) old new
      end
  end.

(** [s.replace(old, new)]; an empty [old] matches before every code point
    and at the end. *)
Definition replace (s old new : str) : str :=
  match old with
  | [] => new ++ concat ((fun c => c :: new) <$> s)
  | _ :: _ => replace_from (length s) s old new
  end.

(** The scan of [s.split(sep)] for a non-empty [sep]. *)
Fixpoint split_from (fuel : nat) (s sep : str) : list str :=
  match fuel with
  | O => [s]
  | S fuel' =>
      match find s sep with
      | None => [s]
      | Some i => take i s :: split_from fuel' (drop (i + length sep) s) sep
      end
  end.

(** [s.split(sep)] for a string [sep] *)
Definition split (s sep : str) : Py (list str) :=
  match sep with
  | [] => raise ValueError
  | _ :: _ => mret (split_from (length s) s sep)
  end.

(** ** [LLM.postprocess_model_outputs] *)

(** [ls[i].append(x)] on a list of lists *)
Definition append_at (ls : list (list str)) (i : Z) (x : str) : Py (list (list str)) :=
  _ ← getitem ls i;
  mret (alter (fun g => g ++ [x]) (Z.to_nat (if i <? 0 then i + len ls else i)) ls).

(** The body of the inner loop, [for out_seq in outputs[i]: ...]. *)
Definition postprocess_candidate (inputs : list str) (example_separator : str) (i : Z)
    (trimmed_outputs : list (list str)) (out_seq : str) : Py (list (list str)) :=
  prompt ← getitem inputs i;
  let out_seq := strip (replace out_seq prompt []) in
  out_seq ← split out_seq example_separator;
  _ ← when (len out_seq =? 1)
        (first ← getitem out_seq 0;
         logger_warning (PotentiallyUnfinished example_separator
                           (slice first 0 50) (slice first (-50) (len first))));
  first ← getitem out_seq 0;
  append_at trimmed_outputs i (strip first).

(** The body of the outer loop, [for i in range(len(trimmed_outputs)): ...]. *)
Definition postprocess_group (inputs : list str) (outputs : list (list str))
    (example_separator : str) (trimmed_outputs : list (list str)) (i : Z)
  : Py (list (list str)) :=
  group ← getitem outputs i;
  for_each group (postprocess_candidate inputs example_separator i) trimmed_outputs.

(** [trimmed_outputs] starts as one fresh empty list per group; the lists
    are distinct objects, so an append reaches one group only. *)
Definition postprocess_model_outputs (inputs : list str) (outputs : list (list str))
    (example_separator : str) (ref_delimiter : option str) : Py (list (list str)) :=
  let trimmed_outputs : list (list str) := replicate (length outputs) [] in
  idx ← range 0 (len trimmed_outputs) 1;
  for_each idx (postprocess_group inputs outputs example_separator) trimmed_outputs.

(** ** [InferenceArguments] *)

Record InferenceArguments : Type := {
  model_name_or_path : str;
  output_dir : option str;
  output_file : option str;
  input_file : option str;
  seed : Z;
  use_cuda : bool;
  batch_size : Z;
  min_length : option Z;
  max_length : Z;
  max_new_tokens : Z;
  length_penalty : spec_float;
  no_early_stop : bool;
  num_return_sequences : Z;
  num_beams : Z;
  do_sample : bool;
  temperature : spec_float;
  top_k : Z;
  top_p : spec_float;
  verbose : bool;
  data_seed : Z;
  debug : bool;
  prompt_prefix : option str;
  n_refs : Z;
  few_shot_n : Z;
  example_separator : str;
  ref_delimiter : str;
  max_memory : spec_float;
  examples : option str
}.

(** The doubles written [1.0] and [0.0]. *)
Definition float_1_0 : spec_float := S754_finite false 4503599627370496 (-52).
Definition float_0_0 : spec_float := S754_zero false.

(** The rational a finite double stands for. *)
Definition float_value (f : spec_float) : option Q :=
  match f with
  | S754_zero _ => Some 0%Q
  | S754_finite s m e =>
      Some (Qred ((if s then -1 else 1) * inject_Z (Zpos m) * Qpower 2 e))
  | _ => None
  end.

Definition LF : char := 10%N.
Definition TAB : char := 9%N.

(** The instance the argument parser builds when only the required
    [model_name_or_path] is given: every other field at its default. *)
Definition InferenceArguments_defaults (model_name_or_path : str) : InferenceArguments := {|
  model_name_or_path := model_name_or_path;
  output_dir := None;
  output_file := None;
  input_file := None;
  seed := 42;
  use_cuda := true;
  batch_size := 1;
  min_length := None;
  max_length := 64;
  max_new_tokens := 100;
  length_penalty := float_1_0;
  no_early_stop := false;
  num_return_sequences := 1;
  num_beams := 4;
  do_sample := false;
  temperature := float_1_0;
  top_k := 0;
  top_p := float_0_0;
  verbose := false;
  data_seed := 42;
  debug := false;
  prompt_prefix := None;
  n_refs := 1;
  few_shot_n := 0;
  example_separator := [LF; LF];
  ref_delimiter := [TAB];
  max_memory := float_1_0;
  examples := None
|}.

(** Code points of a literal. *)
Definition lit (s : string) : str := N_of_ascii <$> list_ascii_of_string s.

(** [str(n)] for an integer, as an f-string interpolates it. *)
Definition str_of_int (n : Z) : str := lit (NilZero.string_of_int (Z.to_int n)).

(** [range(stop)], which cannot raise. *)
Definition range1 (stop : Z) : list Z :=
  match range 0 stop 1 with
  | (Returns idx, _) => idx
  | (Raises _, _) => []
  end.

(** ** [LLM.set_max_memory] *)

(** The method reads two values from the CUDA runtime, the number of
    devices and the memory of device 0 in bytes; they are arguments here.
    Doubles are IEEE binary64 values ([spec_float] at precision 53), the
    dictionary is a finite map from its keys, device numbers and the
    string 'cpu', to strings.  The method logs records of its own and
    its exceptions come from [math.floor]. *)
Module MaxMemory.

Inductive exn : Type :=
  | ValueError
  | OverflowError.

Inductive outcome (A : Type) : Type :=
  | Returns (a : A)
  | Raises (e : exn).
Arguments Returns {A} a.
Arguments Raises {A} e.

(** The two f-strings logged, with the value interpolated. *)
Inductive message : Type :=
  | InferingMaxMemory
  | SetMaximumMemory (max_memory : gmap (Z + str) str).

Definition float64_mul : spec_float -> spec_float -> spec_float := SFmul 53 1024.
Definition float64_div : spec_float -> spec_float -> spec_float := SFdiv 53 1024.

(** [float(n)], exact for integers below 2^53 in absolute value. *)
Definition float64_of_int (n : Z) : spec_float := binary_normalize 53 1024 n 0 false.

(** [a / b] on integers that are exact as doubles, as byte counts are. *)
Definition int_truediv (a b : Z) : spec_float :=
  float64_div (float64_of_int a) (float64_of_int b).

(** The double written [0.6]. *)
Definition float_0_6 : spec_float := S754_finite false 5404319552844595 (-53).

(** [bool(x)]: every double but the two zeros is true. *)
Definition truthy (x : spec_float) : bool := negb (SFeqb x float_0_0).

(** [math.floor(x)] *)
Definition math_floor (x : spec_float) : outcome Z :=
  match x with
  | S754_zero _ => Returns 0
  | S754_finite s m e =>
      let v := if s then Z.neg m else Z.pos m in
      Returns (if 0 <=? e then v * 2 ^ e else v / 2 ^ (- e))
  | S754_infinity _ => Raises OverflowError
  | S754_nan => Raises ValueError
  end.

(** The value of the comprehension for device [i]. *)
Definition budget (t max_memory : spec_float) (i : Z) : outcome str :=
  match (if 0 <? i
         then math_floor (float64_mul t max_memory)
         else math_floor (float64_mul (float64_mul t max_memory) float_0_6))
  with
  | Returns n => Returns (str_of_int n ++ lit "GiB")
  | Raises e => Raises e
  end.

(** [{i: ... for i in idx}], filling [d] in the order of [idx]. *)
Fixpoint comprehension (t max_memory : spec_float) (idx : list Z) (d : gmap (Z + str) str)
  : outcome (gmap (Z + str) str) :=
  match idx with
  | [] => Returns d
  | i :: idx' =>
      match budget t max_memory i with
      | Returns v => comprehension t max_memory idx' (<[inl i := v]> d)
      | Raises e => Raises e
      end
  end.

Definition set_max_memory (n_gpus total_memory : Z) (max_memory : option spec_float)
  : outcome (option (gmap (Z + str) str)) * list (level * message) :=
  match max_memory with
  | Some m =>
      if truthy m && negb (SFeqb m float_1_0) && (1 <? n_gpus) then
        let t := int_truediv total_memory (1024 * 1024 * 1024) in
        match comprehension t m (range1 n_gpus) ∅ with
        | Returns d =>
            let d := <[inr (lit "cpu") := lit "400GiB"]> d in
            (Returns (Some d), [(INFO, InferingMaxMemory); (INFO, SetMaximumMemory d)])
        | Raises e => (Raises e, [(INFO, InferingMaxMemory)])
        end
      else (Returns None, [])
  | None => (Returns None, [])
  end.

End MaxMemory.

(** ** [prepare_HSplitcorpus.gather_complex_simple_sentences] *)

(** A record of the dataset, the dict with the keys "complex" and
    "simple". *)
Record item : Type := Item { complex : str; simple : list str }.

(** [enumerate(l)] *)
Definition enumerate {A} (l : list A) : list (Z * A) :=
  zip (Z.of_nat <$> seq 0 (length l)) l.

(** [dataset[i]["simple"].append(tgt_line)]; every record holds a list of
    its own, so one record changes. *)
Definition append_simple (dataset : list item) (i : Z) (tgt_line : str) : Py (list item) :=
  _ ← getitem dataset i;
  mret (alter (fun it => Item (complex it) (simple it ++ [tgt_line]))
          (Z.to_nat (if i <? 0 then i + len dataset else i)) dataset).

Section HSplit.
(** [iter_lines] comes from the module [utils], which is not part of the
    sources at hand: [iter_lines name] stands for the lines that
    [utils.iter_lines(asset_dir / name)] yields. *)
Variable iter_lines : str -> list str.

Definition gather_complex_simple_sentences (split : str) : Py (list item) :=
  let dataset : list item := [] in
  let src_file := lit "asset.test.orig" in
  dataset ← for_each (iter_lines src_file)
              (fun dataset src_line => mret (dataset ++ [Item src_line []])) dataset;
  versions ← range 5 1 1;
  for_each versions
    (fun dataset simp_version =>
       let tgt_file := lit "Hsplit1." ++ str_of_int simp_version ++ lit "_full" in
       for_each (enumerate (iter_lines tgt_file))
         (fun dataset '(i, tgt_line) => append_simple dataset i tgt_line) dataset)
    dataset.
End HSplit.

(** ** Vocabulary of the properties *)

(** [sub] occurs in [s] as a substring. *)
Definition occurs (sub s : str) : Prop := exists pre post, s = pre ++ sub ++ post.

(** [sub in s] *)
Definition contains (s sub : str) : bool :=
  match find s sub with Some _ => true | None => false end.

(** [s.split(sep)[0]]: what comes before the leftmost separator, or all
    of [s] when there is none (shown below as [split_first]). *)
Definition first_segment (s sep : str) : str :=
  match find s sep with
  | Some i => take i s
  | None => s
  end.

(** The candidate as it is split: prompt replaced by the empty string,
    then stripped. *)
Definition cleaned (out_seq prompt : str) : str := strip (replace out_seq prompt []).

(** The string appended for one candidate. *)
Definition trimmed (out_seq prompt sep : str) : str :=
  strip (first_segment (cleaned out_seq prompt) sep).

(** The record logged for one candidate, if any. *)
Definition warning_of (out_seq prompt sep : str) : list log_record :=
  let c := cleaned out_seq prompt in
  if contains c sep then []
  else [LogRecord WARNING
          (PotentiallyUnfinished sep (slice c 0 50) (slice c (-50) (len c)))].

Definition trimmed_groups (inputs : list str) (outputs : list (list str)) (sep : str)
  : list (list str) :=
  zip_with (fun p g => (fun s => trimmed s p sep) <$> g) inputs outputs.

Definition warnings (inputs : list str) (outputs : list (list str)) (sep : str)
  : list log_record :=
  concat (zip_with (fun p g => concat ((fun s => warning_of s p sep) <$> g)) inputs outputs).

(** Every group is empty. *)
Definition no_candidates (outputs : list (list str)) : bool :=
  forallb (fun g : list str => match g with [] => true | _ :: _ => false end) outputs.

(** No string of a grouped output holds the separator. *)
Definition separator_free (sep : str) (trimmed_outputs : list (list str)) : Prop :=
  Forall (Forall (fun t => ~ occurs sep t)) trimmed_outputs.

(** The shape of a grouped output: the size of each group, in order. *)
Definition shape (groups : list (list str)) : list nat := length <$> groups.

Definition str_eqb (s t : str) : bool := bool_decide (s = t).

(** No leading or trailing white space in any candidate. *)
Definition already_trimmed (outputs : list (list str)) : bool :=
  forallb (forallb (fun s => str_eqb (strip s) s)) outputs.

(** The separator occurs in no candidate. *)
Definition separator_absent (sep : str) (outputs : list (list str)) : bool :=
  forallb (forallb (fun s => negb (contains s sep))) outputs.

(** No candidate of group [i] is changed by replacing [inputs[i]]: the
    prompt is empty or does not occur in it. *)
Definition prompt_absent (inputs : list str) (outputs : list (list str)) : bool :=
  forallb (fun pg : str * list str =>
             forallb (fun s => match pg.1 with
                               | [] => true
                               | _ :: _ => negb (contains s pg.1)
                               end) pg.2)
          (zip inputs outputs).

(** Follows the spec's words, "remove the first literal occurrence of
    [prompt] as a substring from [s]", to be compared with [replace]. *)
Definition remove_first_occurrence (s prompt : str) : str :=
  match find s prompt with
  | Some i => take i s ++ drop (i + length prompt) s
  | None => s
  end.

(** The [b] consecutive groups of [k] elements of [l]: what the
    comprehension of [reshape_model_outputs] builds when [k] divides the
    length (shown below as [reshape_chunks_exact]). *)
Definition chunks {A} (k b : nat) (l : list A) : list (list A) :=
  (fun j : nat => take k (drop (j * k) l)) <$> seq 0 b.

(** ** Vocabulary of the further properties *)

(** The record logged for a split candidate [c] that holds no separator:
    its first 50 and its last 50 code points. *)
Definition warning_record (sep c : str) : log_record :=
  LogRecord WARNING (PotentiallyUnfinished sep (take 50 c) (drop (length c - 50) c)).

(** The candidates, prompt removed and stripped, in which the separator
    does not occur, in the order of the loops. *)
Definition unfinished_candidates (inputs : list str) (outputs : list (list str)) (sep : str)
  : list str :=
  concat (zip_with (fun p g => filter (fun c => contains c sep = false)
                                 ((fun s => cleaned s p) <$> g))
            inputs outputs).

(** * Properties *)

(** ** The effect monad *)

Section Effects.
Context {A B : Type}.

Lemma bind_ret (a : A) (f : A -> Py B) : mret a ≫= f = f a.
Proof. unfold mbind, Py_bind, mret, Py_ret, bind, ret. destruct (f a); reflexivity. Qed.

Lemma bind_raise (e : exn) (f : A -> Py B) : raise e ≫= f = raise e.
Proof. reflexivity. Qed.

Lemma bind_returns (m : Py A) (f : A -> Py B) a l r l' :
  m = (Returns a, l) -> f a = (r, l') -> m ≫= f = (r, l ++ l').
Proof. intros -> Hf. unfold mbind, Py_bind, bind. rewrite Hf. reflexivity. Qed.

Lemma bind_raises (m : Py A) (f : A -> Py B) e l :
  m = (Raises e, l) -> m ≫= f = (Raises e, l).
Proof. intros ->. reflexivity. Qed.

Lemma bind_returns_inv (m : Py A) (f : A -> Py B) b l :
  m ≫= f = (Returns b, l) ->
  exists a l1 l2, m = (Returns a, l1) /\ f a = (Returns b, l2) /\ l = l1 ++ l2.
Proof.
  unfold mbind, Py_bind, bind. destruct m as [[a|e] l1]; [|discriminate].
  destruct (f a) as [r l2] eqn:Hf. intros [= -> <-]. exists a, l1, l2. auto.
Qed.
End Effects.

(** ** Integers, ranges, slices *)

Lemma range_length_up (stop step : Z) :
  0 < step -> 0 < stop -> range_length 0 stop step = (stop - 1) / step + 1.
Proof.
  intros Hstep Hstop. unfold range_length.
  destruct (Z.ltb_spec 0 step); [|lia].
  destruct (Z.leb_spec stop 0); [lia|]. f_equal. f_equal. lia.
Qed.

Lemma range_length_exact (b k : Z) :
  0 < b -> 0 < k -> range_length 0 (b * k) k = b.
Proof.
  intros Hb Hk. rewrite range_length_up by nia.
  replace (b * k - 1) with ((b - 1) * k + (k - 1)) by lia.
  rewrite Z.div_add_l by lia. rewrite Z.div_small by lia. lia.
Qed.

Lemma range_up (stop step : Z) :
  0 < step ->
  range 0 stop step
  = mret ((fun j : nat => Z.of_nat j * step) <$> seq 0 (Z.to_nat (range_length 0 stop step))).
Proof.
  intros Hstep. unfold range. destruct (Z.eqb_spec step 0); [lia|]. reflexivity.
Qed.

Lemma range_len (n : nat) : range 0 (Z.of_nat n) 1 = mret (Z.of_nat <$> seq 0 n).
Proof.
  rewrite range_up by lia.
  assert (Z.to_nat (range_length 0 (Z.of_nat n) 1) = n) as ->.
  { unfold range_length. simpl. destruct (Z.leb_spec (Z.of_nat n) 0); [lia|].
    rewrite Z.div_1_r. lia. }
  f_equal. apply list_fmap_ext. intros _ j _. lia.
Qed.

Section Lists.
Context {A : Type}.
Implicit Types l : list A.

Lemma slice_inside l (a b : Z) :
  0 <= a <= b -> b <= len l ->
  slice l a b = take (Z.to_nat (b - a)) (drop (Z.to_nat a) l).
Proof.
  intros Hab Hb. unfold slice, slice_bound.
  destruct (Z.ltb_spec a 0), (Z.ltb_spec b 0); try lia.
  rewrite !Z.min_l by lia. reflexivity.
Qed.

Lemma slice_prefix l (b : Z) : 0 <= b -> slice l 0 b = take (Z.to_nat b) l.
Proof.
  intros Hb. unfold slice, slice_bound, len.
  destruct (Z.ltb_spec b 0); [lia|]. change (0 <? 0) with false. cbv iota.
  replace (Z.min 0 (Z.of_nat (length l))) with 0 by lia.
  rewrite Z.sub_0_r. change (Z.to_nat 0) with 0%nat. rewrite drop_0.
  destruct (Z.le_ge_cases b (Z.of_nat (length l))).
  - rewrite Z.min_l by lia. reflexivity.
  - rewrite Z.min_r by lia. rewrite Nat2Z.id. rewrite !take_ge by lia. reflexivity.
Qed.

Lemma getitem_lookup l (i : nat) x : l !! i = Some x -> getitem l (Z.of_nat i) = mret x.
Proof.
  intros Hx. unfold getitem, len. pose proof (lookup_lt_Some _ _ _ Hx).
  assert ((Z.of_nat i <? 0) = false) as E by lia. rewrite E. cbv zeta. rewrite E.
  destruct (Z.leb_spec (Z.of_nat (length l)) (Z.of_nat i)); [lia|].
  simpl. rewrite Nat2Z.id, Hx. reflexivity.
Qed.

Lemma getitem_out_of_range l (i : nat) :
  (length l <= i)%nat -> getitem l (Z.of_nat i) = raise IndexError.
Proof.
  intros Hi. unfold getitem, len.
  assert ((Z.of_nat i <? 0) = false) as E by lia. rewrite E. cbv zeta. rewrite E.
  destruct (Z.leb_spec (Z.of_nat (length l)) (Z.of_nat i)); [|lia].
  reflexivity.
Qed.

Lemma length_chunks k b l : length (chunks k b l) = b.
Proof. unfold chunks. rewrite length_fmap, length_seq. reflexivity. Qed.

Lemma lookup_chunks k b l (i : nat) :
  (i < b)%nat -> chunks k b l !! i = Some (take k (drop (i * k) l)).
Proof.
  intros Hi. unfold chunks. rewrite list_lookup_fmap, lookup_seq_lt by lia. reflexivity.
Qed.

Lemma concat_chunks k b l : concat (chunks k b l) = take (b * k) l.
Proof.
  unfold chunks. induction b as [|b IH].
  - reflexivity.
  - rewrite seq_S, fmap_app, concat_app, IH. simpl.
    rewrite app_nil_r, take_take_drop. f_equal. lia.
Qed.

Lemma Forall_length_chunks k b l :
  (b * k <= length l)%nat -> Forall (fun g => length g = k) (chunks k b l).
Proof.
  intros Hl. unfold chunks. rewrite Forall_fmap. apply Forall_forall.
  intros j Hj. apply list_elem_of_In, in_seq in Hj. simpl.
  rewrite length_take, length_drop. nia.
Qed.
End Lists.

(** ** [reshape_model_outputs] *)

Lemma int_truediv_pos (a b : Z) : 0 < b -> int_truediv a b = mret (Z.quot a b).
Proof. intros Hb. unfold int_truediv. destruct (Z.eqb_spec b 0); [lia|reflexivity]. Qed.

Lemma reshape_chunks_up (l : list str) (k : Z) :
  0 < k ->
  reshape_chunks l (len l) k
  = mret ((fun j : nat => slice l (Z.of_nat j * k) (Z.of_nat j * k + k))
            <$> seq 0 (Z.to_nat (range_length 0 (len l) k))).
Proof.
  intros Hk. unfold reshape_chunks. rewrite range_up, bind_ret by assumption.
  f_equal. rewrite <- list_fmap_compose. reflexivity.
Qed.

Lemma reshape_chunks_exact (l : list str) (b k : nat) :
  (0 < b)%nat -> (0 < k)%nat -> length l = (b * k)%nat ->
  reshape_chunks l (len l) (Z.of_nat k) = mret (chunks k b l).
Proof.
  intros Hb Hk Hl. rewrite reshape_chunks_up by lia. f_equal.
  assert (len l = Z.of_nat b * Z.of_nat k) as Hlen by (unfold len; lia).
  rewrite Hlen, range_length_exact, Nat2Z.id by lia.
  unfold chunks. apply list_fmap_ext. intros i j Hj.
  apply lookup_seq in Hj as [Hji Hj]. simpl in Hji. subst j.
  assert (Z.of_nat i * Z.of_nat k + Z.of_nat k <= Z.of_nat b * Z.of_nat k) by nia.
  rewrite slice_inside by lia.
  f_equal; [lia|]. f_equal. lia.
Qed.

Lemma reshape_chunks_zero_step (l : list str) (n : Z) :
  reshape_chunks l n 0 = raise ValueError.
Proof. reflexivity. Qed.

Lemma when_log_then {A} (c : bool) (m : message) (k : Py A) r l :
  k = (r, l) ->
  (when c (logger_info m) ≫= fun _ => k)
  = (r, (if c then [LogRecord INFO m] else []) ++ l).
Proof. intros ->. destruct c; reflexivity. Qed.

Lemma reshape_model_outputs_exact (flat : list str) (b k : nat) :
  (0 < b)%nat -> (0 < k)%nat -> length flat = (b * k)%nat ->
  reshape_model_outputs flat (Z.of_nat b)
  = (Returns (chunks k b flat),
     if 1 <? Z.of_nat k
     then [LogRecord INFO (MoreSequencesThanInputs (len flat) (Z.of_nat b))]
     else []).
Proof.
  intros Hb Hk Hl. unfold reshape_model_outputs.
  rewrite int_truediv_pos, bind_ret by lia.
  assert (Z.quot (len flat) (Z.of_nat b) = Z.of_nat k) as ->.
  { unfold len. rewrite Hl, Nat2Z.inj_mul, Z.mul_comm. apply Z.quot_mul. lia. }
  erewrite when_log_then; [rewrite app_nil_r; reflexivity|].
  rewrite (reshape_chunks_exact flat b k), bind_ret by assumption.
  assert (len (chunks k b flat) = Z.of_nat b) as ->
    by (unfold len; rewrite length_chunks; reflexivity).
  rewrite Z.eqb_refl. unfold assert. rewrite bind_ret.
  change 0 with (Z.of_nat 0).
  erewrite getitem_lookup by (apply lookup_chunks; assumption).
  rewrite bind_ret.
  assert (len (take k (drop (0 * k) flat)) = Z.of_nat k) as ->
    by (unfold len; rewrite length_take, length_drop; nia).
  rewrite Z.eqb_refl, bind_ret. reflexivity.
Qed.

(** C1: for a batch size > 0 and k >= 1, a flat list of batch_size * k
    strings is reshaped into exactly batch_size groups of exactly k
    strings; the groups concatenated in order are the flat list, and
    group i is the slice flat[i*k : (i+1)*k]. *)
Theorem reshape_model_outputs_partitions (flat : list str) (batch_size k : Z) :
  0 < batch_size -> 1 <= k -> len flat = batch_size * k ->
  exists groups log,
    reshape_model_outputs flat batch_size = (Returns groups, log)
    /\ len groups = batch_size
    /\ Forall (fun g => len g = k) groups
    /\ concat groups = flat
    /\ (forall i : nat, Z.of_nat i < batch_size ->
          groups !! i = Some (slice flat (Z.of_nat i * k) ((Z.of_nat i + 1) * k))).
Proof.
  intros Hb Hk Hl.
  assert (length flat = (Z.to_nat batch_size * Z.to_nat k)%nat) as Hn
    by (unfold len in Hl; nia).
  pose proof (reshape_model_outputs_exact flat (Z.to_nat batch_size) (Z.to_nat k)
                ltac:(lia) ltac:(lia) Hn) as Hrun.
  rewrite Z2Nat.id in Hrun by lia.
  eexists _, _. split; [exact Hrun|]. repeat split.
  - unfold len. rewrite length_chunks. lia.
  - eapply Forall_impl; [apply Forall_length_chunks; lia|].
    intros g Hg. unfold len. simpl in Hg. lia.
  - rewrite concat_chunks, take_ge by lia. reflexivity.
  - intros i Hi. rewrite lookup_chunks by lia. f_equal.
    rewrite slice_inside by (unfold len in *; nia).
    f_equal; [lia|]. f_equal. lia.
Qed.

(** Four strings in batches of two. *)
Lemma reshape_model_outputs_partitions_witness :
  exists groups log,
    reshape_model_outputs [lit "a"; lit "b"; lit "c"; lit "d"] 2 = (Returns groups, log)
    /\ len groups = 2
    /\ Forall (fun g => len g = 2) groups
    /\ concat groups = [lit "a"; lit "b"; lit "c"; lit "d"]
    /\ (forall i : nat, Z.of_nat i < 2 ->
          groups !! i
          = Some (slice [lit "a"; lit "b"; lit "c"; lit "d"]
                    (Z.of_nat i * 2) ((Z.of_nat i + 1) * 2))).
Proof.
  apply (reshape_model_outputs_partitions [lit "a"; lit "b"; lit "c"; lit "d"] 2 2);
    [lia | lia | reflexivity].
Defined.

Example reshape_abcd :
  reshape_model_outputs [lit "a"; lit "b"; lit "c"; lit "d"] 2
  = (Returns [[lit "a"; lit "b"]; [lit "c"; lit "d"]],
     [LogRecord INFO (MoreSequencesThanInputs 4 2)]).
Proof. reflexivity. Qed.

(** When the length is above the batch size and not a multiple of it, the
    comprehension builds more groups than the batch size and the first
    assertion fails. *)
Lemma reshape_model_outputs_indivisible (flat : list str) (input_batch_size : Z) :
  0 < input_batch_size -> input_batch_size < len flat ->
  len flat mod input_batch_size <> 0 ->
  exists log, reshape_model_outputs flat input_batch_size = (Raises AssertionError, log).
Proof.
  intros Hb Hn Hmod. unfold reshape_model_outputs.
  rewrite int_truediv_pos, bind_ret by lia.
  assert (0 <= len flat) as Hn0 by (unfold len; lia).
  rewrite Z.quot_div_nonneg by lia.
  set (k := len flat / input_batch_size).
  assert (1 <= k) as Hk by (apply Z.div_le_lower_bound; lia).
  pose proof (Z.div_mod (len flat) input_batch_size ltac:(lia)) as Hdm.
  pose proof (Z.mod_pos_bound (len flat) input_batch_size Hb) as Hr.
  fold k in Hdm.
  eexists. erewrite when_log_then; [reflexivity|].
  rewrite reshape_chunks_up, bind_ret by lia.
  rewrite range_length_up by lia.
  assert (input_batch_size <= (len flat - 1) / k)
    by (apply Z.div_le_lower_bound; lia).
  match goal with |- context [len (?f <$> ?l) =? _] =>
    assert ((len (f <$> l) =? input_batch_size) = false) as ->
      by (apply Z.eqb_neq; unfold len at 1; rewrite length_fmap, length_seq; lia)
  end.
  reflexivity.
Qed.

(** C9: for a non-empty flat list and a batch size above its length,
    [return_seqs_per_input] is 0; the comprehension over [range] raises
    ValueError by itself, so the call raises ValueError and neither
    assertion is reached. *)
Theorem reshape_model_outputs_zero_step (flat : list str) (input_batch_size : Z) :
  flat <> [] -> len flat < input_batch_size ->
  int_truediv (len flat) input_batch_size = mret 0
  /\ reshape_chunks flat (len flat) 0 = raise ValueError
  /\ reshape_model_outputs flat input_batch_size = raise ValueError.
Proof.
  intros Hne Hlt.
  assert (0 <= len flat) as Hn0 by (unfold len; lia).
  assert (int_truediv (len flat) input_batch_size = mret 0) as Hq.
  { rewrite int_truediv_pos by lia. rewrite Z.quot_small by lia. reflexivity. }
  split; [exact Hq|]. split; [reflexivity|].
  unfold reshape_model_outputs. rewrite Hq, bind_ret. reflexivity.
Qed.

(** One string and a batch size of 2. *)
Lemma reshape_model_outputs_zero_step_witness :
  int_truediv (len [lit "a"]) 2 = mret 0
  /\ reshape_chunks [lit "a"] (len [lit "a"]) 0 = raise ValueError
  /\ reshape_model_outputs [lit "a"] 2 = raise ValueError.
Proof.
  apply (reshape_model_outputs_zero_step [lit "a"] 2); [discriminate | reflexivity].
Defined.

(** Three strings and a batch size of 2: the comprehension builds three
    groups and the first assertion fails. *)
Example reshape_abc :
  reshape_model_outputs [lit "a"; lit "b"; lit "c"] 2 = (Raises AssertionError, []).
Proof. reflexivity. Qed.

(** C4: one string and a batch size of 2, a length that is no multiple of
    the batch size: the call does not reach its assertions, it raises
    ValueError from [range]. *)
Theorem reshape_model_outputs_short_input :
  len [lit "a"] mod 2 <> 0
  /\ reshape_model_outputs [lit "a"] 2 = (Raises ValueError, []).
Proof. split; [discriminate | reflexivity]. Qed.

(** ** Searching *)

Lemma startswith_app (s sub : str) :
  startswith s sub = true <-> exists post, s = sub ++ post.
Proof.
  revert s. induction sub as [|c sub IH]; intros s; simpl.
  - split; [intros _; exists s; reflexivity | intros _; destruct s; reflexivity].
  - destruct s as [|d s].
    + split; [discriminate|]. intros [post [=]].
    + simpl. rewrite andb_true_iff, N.eqb_eq, IH. split.
      * intros [-> [post ->]]. eauto.
      * intros [post [= -> ->]]. eauto.
Qed.

Lemma startswith_nil (sub : str) : sub <> [] -> startswith [] sub = false.
Proof. destruct sub; [congruence|reflexivity]. Qed.

Lemma find_nil (sub : str) : sub <> [] -> find [] sub = None.
Proof. destruct sub; [congruence|reflexivity]. Qed.

Lemma find_unfold (s sub : str) :
  find s sub
  = if startswith s sub then Some 0%nat
    else match s with
         | [] => None
         | _ :: s' => S <$> find s' sub
         end.
Proof. destruct s; reflexivity. Qed.

Lemma find_Some_split (s sub : str) (i : nat) :
  find s sub = Some i -> s = take i s ++ sub ++ drop (i + length sub) s.
Proof.
  revert i. induction s as [|c s IH]; intros i; rewrite find_unfold;
    destruct (startswith _ sub) eqn:E.
  - intros [= <-]. apply startswith_app in E as [post E]. simpl.
    rewrite E at 1. rewrite E, drop_app_length. reflexivity.
  - discriminate.
  - intros [= <-]. apply startswith_app in E as [post E]. simpl.
    rewrite E at 1. rewrite E, drop_app_length. reflexivity.
  - destruct (find s sub) as [i'|] eqn:F; [|discriminate]. intros [= <-].
    simpl. f_equal. apply IH. reflexivity.
Qed.

Lemma find_Some_first (s sub : str) (i j : nat) :
  find s sub = Some i -> (j < i)%nat -> startswith (drop j s) sub = false.
Proof.
  revert i j. induction s as [|c s IH]; intros i j; rewrite find_unfold;
    destruct (startswith _ sub) eqn:E.
  - intros [= <-]. lia.
  - discriminate.
  - intros [= <-]. lia.
  - destruct (find s sub) as [i'|] eqn:F; [|discriminate]. intros [= <-] Hj.
    destruct j as [|j]; [exact E|]. simpl. apply (IH i'); [reflexivity|lia].
Qed.

Lemma find_None_nowhere (s sub : str) (j : nat) :
  find s sub = None -> startswith (drop j s) sub = false.
Proof.
  revert j. induction s as [|c s IH]; intros j; rewrite find_unfold;
    destruct (startswith _ sub) eqn:E; try discriminate.
  - intros _. rewrite drop_nil. exact E.
  - destruct (find s sub) eqn:F; [discriminate|]. intros _.
    destruct j as [|j]; [exact E|]. simpl. apply IH. reflexivity.
Qed.

Lemma occurs_startswith (sub pre post : str) :
  startswith (drop (length pre) (pre ++ sub ++ post)) sub = true.
Proof. rewrite drop_app_length. apply startswith_app. eauto. Qed.

Lemma find_Some_occurs (s sub : str) (i : nat) : find s sub = Some i -> occurs sub s.
Proof. intros H. apply find_Some_split in H. red. eauto. Qed.

Lemma find_None_not_occurs (s sub : str) : find s sub = None -> ~ occurs sub s.
Proof.
  intros H (pre & post & ->).
  pose proof (find_None_nowhere _ sub (length pre) H) as E.
  rewrite occurs_startswith in E. discriminate.
Qed.

Lemma contains_occurs (s sub : str) : contains s sub = true <-> occurs sub s.
Proof.
  unfold contains. destruct (find s sub) eqn:F.
  - split; [intros _; eapply find_Some_occurs; eassumption | reflexivity].
  - split; [discriminate|]. intros H. exfalso. eapply find_None_not_occurs; eassumption.
Qed.

(** What precedes the leftmost occurrence holds no occurrence. *)
Lemma first_segment_not_occurs (s sep : str) : sep <> [] -> ~ occurs sep (first_segment s sep).
Proof.
  intros Hsep. unfold first_segment. destruct (find s sep) as [i|] eqn:F.
  - intros (pre & post & Hpre).
    assert (length pre + length sep <= i)%nat as Hlen.
    { pose proof (length_take s i) as Hl. rewrite Hpre, !length_app in Hl. lia. }
    assert (0 < length sep)%nat by (destruct sep; [congruence|simpl; lia]).
    pose proof (find_Some_first s sep i (length pre) F ltac:(lia)) as E.
    rewrite <- (take_drop i s), Hpre, <- !app_assoc in E.
    rewrite occurs_startswith in E. discriminate.
  - apply find_None_not_occurs. assumption.
Qed.

Lemma first_segment_absent (s sep : str) : ~ occurs sep s -> first_segment s sep = s.
Proof.
  intros H. unfold first_segment. destruct (find s sep) eqn:F; [|reflexivity].
  exfalso. apply H. eapply find_Some_occurs. eassumption.
Qed.

Lemma occurs_app (sub s pre post : str) : occurs sub s -> occurs sub (pre ++ s ++ post).
Proof.
  intros (a & b & ->). exists (pre ++ a), (b ++ post).
  rewrite <- !app_assoc. reflexivity.
Qed.

(** ** [split] and [replace] *)

Lemma split_from_fuel (sep : str) (fuel1 fuel2 : nat) (s : str) :
  sep <> [] -> (length s <= fuel1)%nat -> (length s <= fuel2)%nat ->
  split_from fuel1 s sep = split_from fuel2 s sep.
Proof.
  intros Hsep. revert fuel2 s. induction fuel1 as [|fuel1 IH]; intros fuel2 s H1 H2.
  - destruct s; [|simpl in H1; lia]. destruct fuel2; [reflexivity|].
    cbn [split_from replace_from]. rewrite find_nil by assumption. reflexivity.
  - destruct fuel2 as [|fuel2].
    + destruct s; [|simpl in H2; lia].
      cbn [split_from replace_from]. rewrite find_nil by assumption. reflexivity.
    + cbn [split_from]. destruct (find s sep) as [i|] eqn:F; [|reflexivity].
      assert (0 < length sep)%nat by (destruct sep; [congruence|simpl; lia]).
      pose proof (find_Some_split _ _ _ F) as Hs.
      apply (f_equal length) in Hs. rewrite !length_app in Hs.
      f_equal. apply IH; rewrite length_drop; lia.
Qed.

Lemma replace_from_fuel (old new : str) (fuel1 fuel2 : nat) (s : str) :
  old <> [] -> (length s <= fuel1)%nat -> (length s <= fuel2)%nat ->
  replace_from fuel1 s old new = replace_from fuel2 s old new.
Proof.
  intros Hold. revert fuel2 s. induction fuel1 as [|fuel1 IH]; intros fuel2 s H1 H2.
  - destruct s; [|simpl in H1; lia]. destruct fuel2; [reflexivity|].
    cbn [split_from replace_from]. rewrite find_nil by assumption. reflexivity.
  - destruct fuel2 as [|fuel2].
    + destruct s; [|simpl in H2; lia].
      cbn [split_from replace_from]. rewrite find_nil by assumption. reflexivity.
    + cbn [replace_from]. destruct (find s old) as [i|] eqn:F; [|reflexivity].
      assert (0 < length old)%nat by (destruct old; [congruence|simpl; lia]).
      pose proof (find_Some_split _ _ _ F) as Hs.
      apply (f_equal length) in Hs. rewrite !length_app in Hs.
      do 2 f_equal. apply IH; rewrite length_drop; lia.
Qed.

(** The scan of [replace], free of its round counter. *)
Lemma replace_unfold (s old new : str) :
  old <> [] ->
  replace s old new
  = match find s old with
    | None => s
    | Some i => take i s ++ new ++ replace (drop (i + length old) s) old new
    end.
Proof.
  intros Hold. unfold replace. destruct old as [|c old]; [congruence|].
  destruct s as [|d s].
  - simpl. reflexivity.
  - cbn [length replace_from]. destruct (find (d :: s) (c :: old)) as [i|] eqn:F; [|reflexivity].
    do 2 f_equal. apply replace_from_fuel; [congruence | rewrite length_drop; simpl; lia ..].
Qed.

Lemma split_unfold (s sep : str) :
  sep <> [] ->
  split s sep
  = mret (match find s sep with
          | None => [s]
          | Some i => take i s :: split_from (length s) (drop (i + length sep) s) sep
          end).
Proof.
  intros Hsep. unfold split. destruct sep as [|c sep]; [congruence|]. f_equal.
  destruct s as [|d s]; [reflexivity|].
  change (length (d :: s)) with (S (length s)) at 1. cbn [split_from].
  destruct (find (d :: s) (c :: sep)) as [i|] eqn:F; [|reflexivity].
  f_equal. apply split_from_fuel; [congruence | rewrite length_drop; simpl; lia ..].
Qed.

Lemma split_from_nonempty (fuel : nat) (s sep : str) : split_from fuel s sep <> [].
Proof. destruct fuel; cbn [split_from]; [|destruct (find s sep)]; discriminate. Qed.

Lemma split_first (s sep : str) :
  sep <> [] ->
  exists rest, split s sep = mret (first_segment s sep :: rest)
               /\ (rest = [] <-> contains s sep = false).
Proof.
  intros Hsep. rewrite split_unfold by assumption. unfold first_segment, contains.
  destruct (find s sep) as [i|]; eexists; (split; [reflexivity|]); split;
    try congruence.
  intros H. exfalso. revert H. apply split_from_nonempty.
Qed.

Lemma replace_absent (s old new : str) : contains s old = false -> replace s old new = s.
Proof.
  unfold contains. intros H. destruct old as [|c old].
  - destruct s; discriminate.
  - rewrite replace_unfold by discriminate. destruct (find s (c :: old)); [discriminate|reflexivity].
Qed.

Lemma replace_empty_prompt (s : str) : replace s [] [] = s.
Proof.
  unfold replace. rewrite app_nil_l.
  induction s as [|c s IH]; [reflexivity|]. rewrite fmap_cons. simpl. f_equal. exact IH.
Qed.

(** ** [strip] *)

Lemma lstrip_suffix (s : str) : exists pre, s = pre ++ lstrip s.
Proof.
  induction s as [|c s [pre IH]]; simpl.
  - exists []. reflexivity.
  - destruct (isspace c).
    + exists (c :: pre). simpl. f_equal. exact IH.
    + exists []. reflexivity.
Qed.

Lemma lstrip_fixed (s : str) :
  lstrip s = s <-> match s with [] => True | c :: _ => isspace c = false end.
Proof.
  destruct s as [|c s]; simpl; [tauto|].
  destruct (isspace c) eqn:E; [|tauto]. split; [|discriminate].
  intros H. destruct (lstrip_suffix s) as [pre Hpre].
  apply (f_equal length) in H. apply (f_equal length) in Hpre.
  rewrite length_app in Hpre. simpl in H. lia.
Qed.

Lemma lstrip_head (s : str) :
  match lstrip s with [] => True | c :: _ => isspace c = false end.
Proof.
  induction s as [|c s IH]; simpl; [exact I|].
  destruct (isspace c) eqn:E; [exact IH|exact E].
Qed.

Lemma lstrip_idemp (s : str) : lstrip (lstrip s) = lstrip s.
Proof. apply lstrip_fixed, lstrip_head. Qed.

Lemma rstrip_prefix (s : str) : exists post, s = rstrip s ++ post.
Proof.
  unfold rstrip. destruct (lstrip_suffix (reverse s)) as [pre Hpre].
  exists (reverse pre). rewrite <- reverse_app, <- Hpre, reverse_involutive. reflexivity.
Qed.

Lemma rstrip_idemp (s : str) : rstrip (rstrip s) = rstrip s.
Proof. unfold rstrip. rewrite reverse_involutive, lstrip_idemp. reflexivity. Qed.

(** Stripping on the right keeps a string free of leading white space. *)
Lemma lstrip_rstrip (s : str) : lstrip s = s -> lstrip (rstrip s) = rstrip s.
Proof.
  intros Hs. apply lstrip_fixed. apply lstrip_fixed in Hs.
  destruct (rstrip_prefix s) as [post Hpost].
  destruct (rstrip s) as [|c t]; [exact I|].
  rewrite Hpost in Hs. exact Hs.
Qed.

Lemma strip_substring (s : str) : exists pre post, s = pre ++ strip s ++ post.
Proof.
  unfold strip. destruct (lstrip_suffix s) as [pre Hpre].
  destruct (rstrip_prefix (lstrip s)) as [post Hpost].
  exists pre, post. rewrite <- Hpost. exact Hpre.
Qed.

Lemma strip_idemp (s : str) : strip (strip s) = strip s.
Proof.
  unfold strip. rewrite (lstrip_rstrip (lstrip s)) by apply lstrip_idemp.
  apply rstrip_idemp.
Qed.

Lemma occurs_strip (sub s : str) : occurs sub (strip s) -> occurs sub s.
Proof.
  intros H. destruct (strip_substring s) as (pre & post & Hs).
  rewrite Hs. apply occurs_app. exact H.
Qed.

(** The appended string holds no separator. *)
Lemma trimmed_not_occurs (out_seq prompt sep : str) :
  sep <> [] -> ~ occurs sep (trimmed out_seq prompt sep).
Proof.
  intros Hsep H. unfold trimmed in H. apply occurs_strip in H.
  revert H. apply first_segment_not_occurs. exact Hsep.
Qed.

(** A second pass leaves a trimmed string as it is, unless the prompt
    occurs in it. *)
Lemma trimmed_fixed (out_seq prompt prompt' sep : str) :
  sep <> [] ->
  replace (trimmed out_seq prompt sep) prompt' [] = trimmed out_seq prompt sep ->
  trimmed (trimmed out_seq prompt sep) prompt' sep = trimmed out_seq prompt sep.
Proof.
  intros Hsep Hrep. unfold trimmed at 1, cleaned. rewrite Hrep.
  unfold trimmed at 1. rewrite strip_idemp. fold (trimmed out_seq prompt sep).
  rewrite first_segment_absent by (apply trimmed_not_occurs; exact Hsep).
  unfold trimmed. apply strip_idemp.
Qed.

(** ** Monad laws and loops *)

Section Laws.
Context {A B C : Type}.

Lemma bind_ret_r (m : Py A) : m ≫= mret = m.
Proof.
  unfold mbind, Py_bind, mret, Py_ret, bind, ret.
  destruct m as [[a|e] l]; [rewrite app_nil_r|]; reflexivity.
Qed.

Lemma bind_assoc (m : Py A) (f : A -> Py B) (g : B -> Py C) :
  (m ≫= f) ≫= g = m ≫= (fun a => f a ≫= g).
Proof.
  unfold mbind, Py_bind, bind. destruct m as [[a|e] l]; [|reflexivity].
  destruct (f a) as [[b|e] l']; [|reflexivity].
  destruct (g b) as [r l'']. rewrite app_assoc. reflexivity.
Qed.

Lemma bind_ext (m : Py A) (f g : A -> Py B) :
  (forall a, f a = g a) -> m ≫= f = m ≫= g.
Proof.
  intros H. unfold mbind, Py_bind, bind. destruct m as [[a|e] l]; [|reflexivity].
  rewrite H. reflexivity.
Qed.

End Laws.

Section Loops.
Context {A B : Type}.

Lemma for_each_app (xs ys : list A) (body : B -> A -> Py B) (acc : B) :
  for_each (xs ++ ys) body acc = for_each xs body acc ≫= for_each ys body.
Proof.
  revert acc. induction xs as [|x xs IH]; intros acc; cbn [for_each app].
  - rewrite bind_ret. reflexivity.
  - rewrite bind_assoc. apply bind_ext. exact IH.
Qed.

Lemma for_each_singleton (x : A) (body : B -> A -> Py B) (acc : B) :
  for_each [x] body acc = body acc x.
Proof. cbn [for_each]. apply bind_ret_r. Qed.

(** What holds of the state before a loop and is kept by every round
    that returns holds of the state a returning loop ends in. *)
Lemma for_each_invariant (I : B -> Prop) (xs : list A) (body : B -> A -> Py B) acc r l :
  (forall acc x acc' l', I acc -> body acc x = (Returns acc', l') -> I acc') ->
  I acc -> for_each xs body acc = (Returns r, l) -> I r.
Proof.
  intros Hbody. revert acc l. induction xs as [|x xs IH]; intros acc l Hacc; cbn [for_each].
  - intros [= <- _]. exact Hacc.
  - intros (acc' & l1 & l2 & Hx & Hrest & _)%bind_returns_inv. eauto.
Qed.
End Loops.

(** ** [postprocess_model_outputs] *)

Section Postprocess.
Variables (inputs : list str) (sep : str).

Lemma append_at_lookup (ls : list (list str)) (i : nat) (x : str) :
  (i < length ls)%nat ->
  append_at ls (Z.of_nat i) x = mret (alter (fun g => g ++ [x]) i ls).
Proof.
  intros Hi. destruct (lookup_lt_is_Some_2 ls i Hi) as [g Hg].
  unfold append_at. rewrite (getitem_lookup _ _ _ Hg), bind_ret.
  assert ((Z.of_nat i <? 0) = false) as -> by lia. rewrite Nat2Z.id. reflexivity.
Qed.

(** One round of the inner loop, for a prompt that exists and a
    non-empty separator. *)
Lemma postprocess_candidate_returns (i : nat) (prompt : str)
    (trimmed_outputs : list (list str)) (out_seq : str) :
  sep <> [] -> inputs !! i = Some prompt -> (i < length trimmed_outputs)%nat ->
  postprocess_candidate inputs sep (Z.of_nat i) trimmed_outputs out_seq
  = (Returns (alter (fun g => g ++ [trimmed out_seq prompt sep]) i trimmed_outputs),
     warning_of out_seq prompt sep).
Proof.
  intros Hsep Hp Hi. unfold postprocess_candidate.
  rewrite (getitem_lookup _ _ _ Hp), bind_ret.
  fold (cleaned out_seq prompt).
  destruct (split_first (cleaned out_seq prompt) sep Hsep) as (rest & Hsplit & Hrest).
  rewrite Hsplit, bind_ret.
  change 0 with (Z.of_nat 0).
  rewrite (getitem_lookup (first_segment (cleaned out_seq prompt) sep :: rest) 0
             (first_segment (cleaned out_seq prompt) sep)) by reflexivity.
  rewrite !bind_ret, append_at_lookup by assumption.
  fold (trimmed out_seq prompt sep). unfold warning_of.
  destruct (contains (cleaned out_seq prompt) sep) eqn:Hc.
  - assert ((len (first_segment (cleaned out_seq prompt) sep :: rest) =? 1) = false)
      as ->.
    { apply Z.eqb_neq. unfold len. destruct rest as [|? ?]; simpl length; [|lia].
      destruct Hrest as [Hrest _]. specialize (Hrest eq_refl). discriminate. }
    reflexivity.
  - destruct Hrest as [_ ->]; [|reflexivity].
    unfold first_segment, contains in *.
    destruct (find (cleaned out_seq prompt) sep); [discriminate|]. reflexivity.
Qed.

(** One round of the inner loop for an empty separator. *)
Lemma postprocess_candidate_empty_separator (i : nat) (prompt : str)
    (trimmed_outputs : list (list str)) (out_seq : str) :
  inputs !! i = Some prompt ->
  postprocess_candidate inputs [] (Z.of_nat i) trimmed_outputs out_seq
  = raise ValueError.
Proof.
  intros Hp. unfold postprocess_candidate.
  rewrite (getitem_lookup _ _ _ Hp), bind_ret. reflexivity.
Qed.

Lemma inner_loop_returns (i : nat) (prompt : str) (group : list str)
    (trimmed_outputs : list (list str)) :
  sep <> [] -> inputs !! i = Some prompt -> (i < length trimmed_outputs)%nat ->
  for_each group (postprocess_candidate inputs sep (Z.of_nat i)) trimmed_outputs
  = (Returns (alter (fun g => g ++ ((fun s => trimmed s prompt sep) <$> group))
                i trimmed_outputs),
     concat ((fun s => warning_of s prompt sep) <$> group)).
Proof.
  intros Hsep Hp. revert trimmed_outputs.
  induction group as [|s group IH]; intros acc Hi; cbn [for_each].
  - rewrite list_alter_id by (intros g; apply app_nil_r). reflexivity.
  - erewrite bind_returns;
      [ | apply postprocess_candidate_returns; eassumption
        | apply IH; rewrite length_alter; exact Hi ].
    rewrite list_alter_alter_eq. do 2 f_equal.
    apply list_alter_ext; [|reflexivity]. intros g _. simpl.
    rewrite <- app_assoc. reflexivity.
Qed.

Lemma inner_loop_empty_separator (i : nat) (prompt : str) (group : list str)
    (trimmed_outputs : list (list str)) :
  inputs !! i = Some prompt ->
  for_each group (postprocess_candidate inputs [] (Z.of_nat i)) trimmed_outputs
  = match group with [] => mret trimmed_outputs | _ :: _ => raise ValueError end.
Proof.
  intros Hp. destruct group as [|s group]; [reflexivity|]. cbn [for_each].
  rewrite (postprocess_candidate_empty_separator _ _ _ _ Hp). reflexivity.
Qed.

Variable outputs : list (list str).
Hypothesis same_length : length inputs = length outputs.

Lemma outer_loop_returns (n m : nat) :
  sep <> [] -> (m <= length outputs)%nat -> (m <= n)%nat ->
  for_each (Z.of_nat <$> seq 0 m) (postprocess_group inputs outputs sep) (replicate n [])
  = (Returns (trimmed_groups (take m inputs) (take m outputs) sep ++ replicate (n - m) []),
     warnings (take m inputs) (take m outputs) sep).
Proof.
  intros Hsep. induction m as [|m IH]; intros Hm Hn.
  - rewrite Nat.sub_0_r. reflexivity.
  - destruct (lookup_lt_is_Some_2 outputs m ltac:(lia)) as [group Hg].
    destruct (lookup_lt_is_Some_2 inputs m ltac:(lia)) as [prompt Hp].
    rewrite seq_S, fmap_app, for_each_app. change (0 + m)%nat with m.
    rewrite fmap_cons, fmap_nil.
    assert (length (trimmed_groups (take m inputs) (take m outputs) sep) = m) as Hdone.
    { unfold trimmed_groups. rewrite length_zip_with, !length_take. lia. }
    erewrite bind_returns; [ | apply IH; lia | ].
    2:{ rewrite for_each_singleton. unfold postprocess_group.
        rewrite (getitem_lookup _ _ _ Hg), bind_ret.
        apply inner_loop_returns; [assumption|eassumption|].
        rewrite length_app, length_replicate. lia. }
    rewrite alter_app_r_alt by lia. rewrite Hdone, Nat.sub_diag.
    replace (n - m)%nat with (S (n - S m)) by lia. cbn [replicate alter list_alter].
    rewrite (take_S_r _ _ _ Hg), (take_S_r _ _ _ Hp).
    unfold trimmed_groups, warnings.
    rewrite !zip_with_app by (rewrite !length_take; lia).
    rewrite concat_app, <- app_assoc. simpl. rewrite app_nil_r. reflexivity.
Qed.

Lemma outer_loop_empty_separator (m : nat) (trimmed_outputs : list (list str)) :
  (m <= length outputs)%nat ->
  for_each (Z.of_nat <$> seq 0 m) (postprocess_group inputs outputs []) trimmed_outputs
  = if no_candidates (take m outputs) then mret trimmed_outputs else raise ValueError.
Proof.
  induction m as [|m IH]; intros Hm; [reflexivity|].
  destruct (lookup_lt_is_Some_2 outputs m ltac:(lia)) as [group Hg].
  destruct (lookup_lt_is_Some_2 inputs m ltac:(lia)) as [prompt Hp].
  rewrite seq_S, fmap_app, for_each_app, IH by lia.
  rewrite (take_S_r _ _ _ Hg). unfold no_candidates. rewrite forallb_app.
  fold (no_candidates (take m outputs)).
  destruct (no_candidates (take m outputs)); [|reflexivity].
  rewrite bind_ret. change (0 + m)%nat with m.
  rewrite fmap_cons, fmap_nil, for_each_singleton.
  unfold postprocess_group. rewrite (getitem_lookup _ _ _ Hg), bind_ret.
  rewrite (inner_loop_empty_separator _ _ _ _ Hp).
  destruct group; reflexivity.
Qed.

(** With a non-empty separator the call returns, group by group, the
    trimmed candidates, and logs the warnings in order. *)
Lemma postprocess_model_outputs_returns (ref_delimiter : option str) :
  sep <> [] ->
  postprocess_model_outputs inputs outputs sep ref_delimiter
  = (Returns (trimmed_groups inputs outputs sep), warnings inputs outputs sep).
Proof.
  intros Hsep. unfold postprocess_model_outputs, len.
  rewrite length_replicate, range_len, bind_ret.
  rewrite outer_loop_returns by (assumption || lia).
  rewrite Nat.sub_diag, app_nil_r, !take_ge by lia. reflexivity.
Qed.

(** With the empty separator [split] raises on the first candidate. *)
Lemma postprocess_model_outputs_empty_separator (ref_delimiter : option str) :
  postprocess_model_outputs inputs outputs [] ref_delimiter
  = if no_candidates outputs then mret (replicate (length outputs) [])
    else raise ValueError.
Proof.
  unfold postprocess_model_outputs, len.
  rewrite length_replicate, range_len, bind_ret.
  rewrite outer_loop_empty_separator by lia. rewrite take_ge by lia. reflexivity.
Qed.
End Postprocess.

Lemma shape_trimmed_groups (inputs : list str) (outputs : list (list str)) (sep : str) :
  length inputs = length outputs -> shape (trimmed_groups inputs outputs sep) = shape outputs.
Proof.
  unfold shape, trimmed_groups. revert outputs.
  induction inputs as [|p inputs IH]; intros [|g outputs]; simpl; try discriminate.
  - reflexivity.
  - intros [= H]. rewrite length_fmap. f_equal. apply IH. exact H.
Qed.

Lemma shape_no_candidates (outputs : list (list str)) :
  no_candidates outputs = true -> shape (replicate (length outputs) []) = shape outputs.
Proof.
  unfold shape. induction outputs as [|g outputs IH]; [reflexivity|].
  simpl. destruct g; [|discriminate]. intros H. f_equal. apply IH. exact H.
Qed.

(** ** Shape, content and log of the result *)

Lemma elem_of_concat {A} (x : A) (l : list A) (ls : list (list A)) :
  x ∈ l -> l ∈ ls -> x ∈ concat ls.
Proof.
  rewrite !list_elem_of_In. intros Hx Hl. apply in_concat. eauto.
Qed.

Lemma lookup_trimmed_groups (inputs : list str) (outputs : list (list str)) (sep : str)
    (i j : nat) (prompt : str) (group : list str) (out_seq : str) :
  inputs !! i = Some prompt -> outputs !! i = Some group -> group !! j = Some out_seq ->
  exists group', trimmed_groups inputs outputs sep !! i = Some group'
                 /\ group' !! j = Some (trimmed out_seq prompt sep).
Proof.
  intros Hp Hg Hs. eexists. split.
  - unfold trimmed_groups. rewrite lookup_zip_with, Hp, Hg. reflexivity.
  - rewrite list_lookup_fmap, Hs. reflexivity.
Qed.

Lemma elem_of_warnings (inputs : list str) (outputs : list (list str)) (sep : str)
    (i j : nat) (prompt : str) (group : list str) (out_seq : str) (record : log_record) :
  inputs !! i = Some prompt -> outputs !! i = Some group -> group !! j = Some out_seq ->
  record ∈ warning_of out_seq prompt sep -> record ∈ warnings inputs outputs sep.
Proof.
  intros Hp Hg Hs Hr. unfold warnings.
  eapply elem_of_concat; [|eapply list_elem_of_lookup_2; rewrite lookup_zip_with, Hp, Hg; reflexivity].
  eapply elem_of_concat; [exact Hr|].
  eapply list_elem_of_lookup_2. rewrite list_lookup_fmap, Hs. reflexivity.
Qed.

(** C5: with as many inputs as groups, whatever the call returns has the
    shape of [outputs], the same number of groups and the same number of
    strings in each; and the call does return for every non-empty
    separator. *)
Theorem postprocess_model_outputs_shape (inputs : list str) (outputs : list (list str))
    (sep : str) (ref_delimiter : option str) :
  length inputs = length outputs ->
  (sep <> [] ->
   exists trimmed_outputs log,
     postprocess_model_outputs inputs outputs sep ref_delimiter = (Returns trimmed_outputs, log))
  /\ (forall trimmed_outputs log,
        postprocess_model_outputs inputs outputs sep ref_delimiter = (Returns trimmed_outputs, log) ->
        length trimmed_outputs = length outputs /\ shape trimmed_outputs = shape outputs).
Proof.
  intros Hlen. split.
  - intros Hsep. rewrite postprocess_model_outputs_returns by assumption. eauto.
  - intros r log. destruct sep as [|c sep].
    + rewrite postprocess_model_outputs_empty_separator by assumption.
      destruct (no_candidates outputs) eqn:Hnone; [|discriminate].
      intros [= <- _]. split; [apply length_replicate|].
      apply shape_no_candidates. exact Hnone.
    + rewrite postprocess_model_outputs_returns by (assumption || discriminate).
      intros [= <- _]. split; [|apply shape_trimmed_groups; exact Hlen].
      unfold trimmed_groups. rewrite length_zip_with. lia.
Qed.

(** Two prompts, a group of two candidates and an empty group. *)
Lemma postprocess_model_outputs_shape_witness :
  (([LF; LF] : str) <> [] ->
   exists trimmed_outputs log,
     postprocess_model_outputs [lit "p"; lit "q"] [[lit "p x"; lit "y"]; []] [LF; LF] None
     = (Returns trimmed_outputs, log))
  /\ (forall trimmed_outputs log,
        postprocess_model_outputs [lit "p"; lit "q"] [[lit "p x"; lit "y"]; []] [LF; LF] None
        = (Returns trimmed_outputs, log) ->
        length trimmed_outputs = length [[lit "p x"; lit "y"]; []]
        /\ shape trimmed_outputs = shape [[lit "p x"; lit "y"]; []]).
Proof.
  apply (postprocess_model_outputs_shape [lit "p"; lit "q"] [[lit "p x"; lit "y"]; []]).
  reflexivity.
Defined.

(** C7: the story scenario. *)
Theorem postprocess_model_outputs_story :
  postprocess_model_outputs
    [lit "Tell me a story."]
    [[lit "Tell me a story. Once upon a time." ++ [LF; LF] ++ lit "The end"]]
    [LF; LF] None
  = (Returns [[lit "Once upon a time."]], []).
Proof. vm_compute. reflexivity. Qed.

(** C8: the defaults of the command-line configuration. *)
Theorem InferenceArguments_default_values (model : str) :
  let args := InferenceArguments_defaults model in
  max_new_tokens args = 100
  /\ num_beams args = 4
  /\ do_sample args = false
  /\ temperature args = float_1_0 /\ float_value (temperature args) = Some 1%Q
  /\ top_k args = 0
  /\ top_p args = float_0_0 /\ float_value (top_p args) = Some 0%Q
  /\ num_return_sequences args = 1
  /\ example_separator args = [LF; LF].
Proof. repeat split. Qed.

(** C6: a candidate whose split yields exactly one segment (no separator
    in the prompt-free, stripped candidate) does not make the call fail:
    the call returns, the string it returns for that candidate is the
    whole candidate with the prompt removed and stripped, and a warning
    with the first and last 50 code points of it is logged. *)
Theorem postprocess_model_outputs_separator_missing
    (inputs : list str) (outputs : list (list str)) (sep : str) (ref_delimiter : option str)
    (i j : nat) (prompt : str) (group : list str) (out_seq segment : str) :
  length inputs = length outputs ->
  inputs !! i = Some prompt -> outputs !! i = Some group -> group !! j = Some out_seq ->
  split (strip (replace out_seq prompt [])) sep = mret [segment] ->
  let whole := strip (replace out_seq prompt []) in
  exists trimmed_outputs log group',
    postprocess_model_outputs inputs outputs sep ref_delimiter = (Returns trimmed_outputs, log)
    /\ trimmed_outputs !! i = Some group'
    /\ group' !! j = Some whole
    /\ LogRecord WARNING
         (PotentiallyUnfinished sep (slice whole 0 50) (slice whole (-50) (len whole)))
       ∈ log.
Proof.
  intros Hlen Hp Hg Hs Hsplit whole.
  assert (sep <> []) as Hsep by (intros ->; discriminate).
  destruct (split_first whole sep Hsep) as (rest & Hfirst & Hrest).
  fold whole in Hsplit. rewrite Hfirst in Hsplit. injection Hsplit as Hseg Hnil.
  apply Hrest in Hnil.
  assert (trimmed out_seq prompt sep = whole) as Htrim.
  { unfold trimmed, cleaned. fold whole. unfold first_segment, contains in *.
    destruct (find whole sep); [discriminate|]. apply strip_idemp. }
  destruct (lookup_trimmed_groups inputs outputs sep i j _ _ _ Hp Hg Hs)
    as (group' & Hi & Hj).
  exists (trimmed_groups inputs outputs sep), (warnings inputs outputs sep), group'.
  split; [apply postprocess_model_outputs_returns; assumption|].
  split; [exact Hi|]. split; [rewrite Hj, Htrim; reflexivity|].
  eapply elem_of_warnings; [exact Hp|exact Hg|exact Hs|].
  unfold warning_of, cleaned. fold whole. rewrite Hnil. apply list_elem_of_singleton. reflexivity.
Qed.

(** A candidate that ends before any separator. *)
Lemma postprocess_model_outputs_separator_missing_witness :
  exists trimmed_outputs log group',
    postprocess_model_outputs [lit "Say hi."] [[lit "Say hi. hello "]] [LF; LF] None
    = (Returns trimmed_outputs, log)
    /\ trimmed_outputs !! 0%nat = Some group'
    /\ group' !! 0%nat = Some (lit "hello")
    /\ LogRecord WARNING (PotentiallyUnfinished [LF; LF] (lit "hello") (lit "hello")) ∈ log.
Proof.
  apply (postprocess_model_outputs_separator_missing
           [lit "Say hi."] [[lit "Say hi. hello "]] [LF; LF] None
           0 0 (lit "Say hi.") [lit "Say hi. hello "] (lit "Say hi. hello ") (lit "hello"));
    reflexivity.
Defined.

(** C2, as stated: the string kept for a candidate is what the first
    segment gives after removing only the first occurrence of the prompt.
    It fails for the prompt "a" and the candidate "a b a": the code
    returns "b", the statement asks for "b a". *)
Lemma postprocess_model_outputs_removes_later_occurrences :
  ~ (forall (inputs : list str) (outputs : list (list str)) (sep : str)
            (ref_delimiter : option str) trimmed_outputs log
            (i j : nat) (prompt : str) (group : list str) (out_seq : str),
        length inputs = length outputs ->
        postprocess_model_outputs inputs outputs sep ref_delimiter
        = (Returns trimmed_outputs, log) ->
        inputs !! i = Some prompt -> outputs !! i = Some group -> group !! j = Some out_seq ->
        exists group',
          trimmed_outputs !! i = Some group'
          /\ group' !! j
             = Some (strip (first_segment
                              (strip (remove_first_occurrence out_seq prompt)) sep))).
Proof.
  intros H.
  destruct (H [lit "a"] [[lit "a b a"]] [LF; LF] None
              [[lit "b"]] [LogRecord WARNING (PotentiallyUnfinished [LF; LF] (lit "b") (lit "b"))]
              0%nat 0%nat (lit "a") [lit "a b a"] (lit "a b a")
              eq_refl eq_refl eq_refl eq_refl eq_refl) as (group' & Hi & Hj).
  injection Hi as <-. vm_compute in Hj. discriminate.
Qed.

(** C2, amended: the string kept for a candidate is the stripped first
    segment of the candidate after [str.replace] has removed every
    occurrence of the prompt it finds scanning left to right, and after
    stripping; the call returns for every non-empty separator. *)
Theorem postprocess_model_outputs_strips_prompt
    (inputs : list str) (outputs : list (list str)) (sep : str) (ref_delimiter : option str)
    (i j : nat) (prompt : str) (group : list str) (out_seq : str) :
  length inputs = length outputs ->
  inputs !! i = Some prompt -> outputs !! i = Some group -> group !! j = Some out_seq ->
  (sep <> [] ->
   exists trimmed_outputs log,
     postprocess_model_outputs inputs outputs sep ref_delimiter = (Returns trimmed_outputs, log))
  /\ (forall trimmed_outputs log,
        postprocess_model_outputs inputs outputs sep ref_delimiter
        = (Returns trimmed_outputs, log) ->
        exists group',
          trimmed_outputs !! i = Some group'
          /\ group' !! j
             = Some (strip (first_segment (strip (replace out_seq prompt [])) sep))).
Proof.
  intros Hlen Hp Hg Hs. split.
  - intros Hsep. rewrite postprocess_model_outputs_returns by assumption. eauto.
  - intros r log. destruct sep as [|c sep].
    + rewrite postprocess_model_outputs_empty_separator by assumption.
      assert (no_candidates outputs = false) as ->; [|discriminate].
      apply not_true_is_false. intros Hnone. unfold no_candidates in Hnone.
      rewrite forallb_forall in Hnone.
      specialize (Hnone group ltac:(apply list_elem_of_In; eapply list_elem_of_lookup_2; exact Hg)).
      destruct group; [discriminate Hs|discriminate Hnone].
    + rewrite postprocess_model_outputs_returns by (assumption || discriminate).
      intros [= <- _]. eapply lookup_trimmed_groups; eassumption.
Qed.

(** The prompt "a" occurs twice in "a b a". *)
Lemma postprocess_model_outputs_strips_prompt_witness :
  (([LF; LF] : str) <> [] ->
   exists trimmed_outputs log,
     postprocess_model_outputs [lit "a"] [[lit "a b a"]] [LF; LF] None
     = (Returns trimmed_outputs, log))
  /\ (forall trimmed_outputs log,
        postprocess_model_outputs [lit "a"] [[lit "a b a"]] [LF; LF] None
        = (Returns trimmed_outputs, log) ->
        exists group',
          trimmed_outputs !! 0%nat = Some group'
          /\ group' !! 0%nat
             = Some (strip (first_segment (strip (replace (lit "a b a") (lit "a") [])) [LF; LF]))).
Proof.
  apply (postprocess_model_outputs_strips_prompt [lit "a"] [[lit "a b a"]] [LF; LF] None
           0 0 (lit "a") [lit "a b a"] (lit "a b a")); reflexivity.
Defined.

(** ** What a returning call went through *)

Lemma getitem_returns_inv {A} (l : list A) (i : Z) (x : A) (log : list log_record) :
  getitem l i = (Returns x, log) -> x ∈ l /\ log = [].
Proof.
  unfold getitem. destruct (_ || _); [discriminate|].
  destruct (l !! _) eqn:Hx; [|discriminate]. intros [= <- <-].
  split; [eapply list_elem_of_lookup_2; exact Hx|reflexivity].
Qed.

Lemma append_at_returns_inv (ls ls' : list (list str)) (i : Z) (x : str)
    (log : list log_record) :
  append_at ls i x = (Returns ls', log) ->
  exists j : nat, ls' = alter (fun g => g ++ [x]) j ls.
Proof.
  unfold append_at. intros (_ & l1 & l2 & _ & [= <- _] & _)%bind_returns_inv. eauto.
Qed.

Lemma split_returns_inv (s sep : str) (segments : list str) (log : list log_record) :
  split s sep = (Returns segments, log) ->
  sep <> [] /\ exists rest, segments = first_segment s sep :: rest.
Proof.
  intros H. assert (sep <> []) as Hsep by (intros ->; discriminate).
  split; [exact Hsep|]. destruct (split_first s sep Hsep) as (rest & Hfirst & _).
  rewrite Hfirst in H. injection H as <- _. eauto.
Qed.

Section Invariant.
Variables (inputs : list str) (outputs : list (list str)) (sep : str).

Lemma postprocess_candidate_separator_free (i : Z) (out_seq : str)
    (trimmed_outputs trimmed_outputs' : list (list str)) (log : list log_record) :
  separator_free sep trimmed_outputs ->
  postprocess_candidate inputs sep i trimmed_outputs out_seq = (Returns trimmed_outputs', log) ->
  separator_free sep trimmed_outputs'.
Proof.
  intros Hfree. unfold postprocess_candidate.
  intros (prompt & ? & ? & _ & Hrest & _)%bind_returns_inv.
  apply bind_returns_inv in Hrest as (segments & ? & ? & Hsplit & Hrest & _).
  apply split_returns_inv in Hsplit as (Hsep & rest & ->).
  apply bind_returns_inv in Hrest as (_ & ? & ? & _ & Hrest & _).
  change 0 with (Z.of_nat 0) in Hrest.
  rewrite (getitem_lookup (_ :: rest) 0 _ eq_refl), bind_ret in Hrest.
  apply append_at_returns_inv in Hrest as (j & ->).
  apply Forall_alter; [exact Hfree|]. intros g _ Hg.
  apply Forall_app. split; [exact Hg|]. apply Forall_singleton.
  apply (trimmed_not_occurs out_seq prompt sep Hsep).
Qed.

Lemma postprocess_group_separator_free (i : Z)
    (trimmed_outputs trimmed_outputs' : list (list str)) (log : list log_record) :
  separator_free sep trimmed_outputs ->
  postprocess_group inputs outputs sep trimmed_outputs i = (Returns trimmed_outputs', log) ->
  separator_free sep trimmed_outputs'.
Proof.
  intros Hfree. unfold postprocess_group.
  intros (group & ? & ? & _ & Hloop & _)%bind_returns_inv.
  eapply for_each_invariant; [|exact Hfree|exact Hloop].
  intros acc s acc' l. apply postprocess_candidate_separator_free.
Qed.
End Invariant.

(** C10: whatever the call returns for a non-empty separator, no returned
    string holds an occurrence of the separator. *)
Theorem postprocess_model_outputs_separator_free
    (inputs : list str) (outputs : list (list str)) (sep : str) (ref_delimiter : option str)
    (trimmed_outputs : list (list str)) (log : list log_record) :
  sep <> [] ->
  postprocess_model_outputs inputs outputs sep ref_delimiter = (Returns trimmed_outputs, log) ->
  forall (group : list str) (t : str),
    group ∈ trimmed_outputs -> t ∈ group -> ~ occurs sep t /\ contains t sep = false.
Proof.
  intros Hsep. unfold postprocess_model_outputs.
  intros (idx & ? & ? & _ & Hloop & _)%bind_returns_inv.
  assert (separator_free sep trimmed_outputs) as Hfree.
  { eapply for_each_invariant; [|
      |exact Hloop].
    - intros acc i acc' l. apply postprocess_group_separator_free.
    - apply Forall_replicate. constructor. }
  intros group t Hgroup Ht.
  unfold separator_free in Hfree. rewrite Forall_forall in Hfree.
  specialize (Hfree group Hgroup). rewrite Forall_forall in Hfree.
  specialize (Hfree t Ht). split; [exact Hfree|].
  apply not_true_is_false. intros Hc. apply Hfree, contains_occurs. exact Hc.
Qed.

(** The result of the story scenario. *)
Lemma postprocess_model_outputs_separator_free_witness :
  ~ occurs [LF; LF] (lit "Once upon a time.")
  /\ contains (lit "Once upon a time.") [LF; LF] = false.
Proof.
  apply (postprocess_model_outputs_separator_free
           [lit "Tell me a story."]
           [[lit "Tell me a story. Once upon a time." ++ [LF; LF] ++ lit "The end"]]
           [LF; LF] None [[lit "Once upon a time."]] []
           ltac:(discriminate) eq_refl [lit "Once upon a time."] (lit "Once upon a time."));
    apply list_elem_of_here.
Defined.

(** ** A second pass *)

Lemma replace_prompt_absent (t prompt : str) :
  match prompt with [] => true | _ :: _ => negb (contains t prompt) end = true ->
  replace t prompt [] = t.
Proof.
  destruct prompt as [|c prompt]; intros H.
  - apply replace_empty_prompt.
  - apply replace_absent. apply negb_true_iff. exact H.
Qed.

Lemma trimmed_group_fixed (group : list str) (prompt sep : str) :
  sep <> [] ->
  forallb (fun s => match prompt with [] => true | _ :: _ => negb (contains s prompt) end)
          ((fun s => trimmed s prompt sep) <$> group) = true ->
  (fun s => trimmed s prompt sep) <$> ((fun s => trimmed s prompt sep) <$> group)
  = (fun s => trimmed s prompt sep) <$> group.
Proof.
  intros Hsep. induction group as [|s group IH]; [reflexivity|].
  rewrite !fmap_cons. cbn [forallb]. intros [Hs Hrest]%andb_true_iff.
  f_equal; [|apply IH; exact Hrest].
  apply trimmed_fixed; [exact Hsep|]. apply replace_prompt_absent. exact Hs.
Qed.

Lemma trimmed_groups_fixed (inputs : list str) (outputs : list (list str)) (sep : str) :
  sep <> [] ->
  prompt_absent inputs (trimmed_groups inputs outputs sep) = true ->
  trimmed_groups inputs (trimmed_groups inputs outputs sep) sep
  = trimmed_groups inputs outputs sep.
Proof.
  intros Hsep. unfold prompt_absent, trimmed_groups. revert outputs.
  induction inputs as [|p inputs IH]; intros [|g outputs]; try reflexivity.
  cbn [zip_with forallb fst snd]. intros [Hg Hrest]%andb_true_iff.
  f_equal; [|apply IH; exact Hrest].
  apply trimmed_group_fixed; assumption.
Qed.

Lemma no_candidates_replicate (n : nat) : no_candidates (replicate n []) = true.
Proof. induction n as [|n IH]; [reflexivity|exact IH]. Qed.

(** C3, as stated: on candidates without leading or trailing white
    space and without the separator, and with the first result free of
    both as well, a second call returns what the first returned.  It
    fails for the prompt "ab" and the candidate "aabb": the first call
    returns "ab", the second removes it. *)
Lemma postprocess_model_outputs_not_idempotent :
  ~ (forall (inputs : list str) (outputs : list (list str)) (sep : str)
            (ref_delimiter : option str) trimmed_outputs log,
        length inputs = length outputs ->
        already_trimmed outputs = true -> separator_absent sep outputs = true ->
        postprocess_model_outputs inputs outputs sep ref_delimiter
        = (Returns trimmed_outputs, log) ->
        already_trimmed trimmed_outputs = true ->
        separator_absent sep trimmed_outputs = true ->
        exists log',
          postprocess_model_outputs inputs trimmed_outputs sep ref_delimiter
          = (Returns trimmed_outputs, log')).
Proof.
  intros H.
  destruct (H [lit "ab"] [[lit "aabb"]] [LF; LF] None [[lit "ab"]]
              [LogRecord WARNING (PotentiallyUnfinished [LF; LF] (lit "ab") (lit "ab"))]
              eq_refl eq_refl eq_refl eq_refl eq_refl eq_refl) as (log' & Hsecond).
  vm_compute in Hsecond. discriminate.
Qed.

(** C3, amended: when the first call returns and no prompt occurs in a
    string of its group of the first result (the prompt is empty or
    absent), a second call on the first result returns it unchanged. *)
Theorem postprocess_model_outputs_idempotent
    (inputs : list str) (outputs : list (list str)) (sep : str) (ref_delimiter : option str)
    (trimmed_outputs : list (list str)) (log : list log_record) :
  length inputs = length outputs ->
  postprocess_model_outputs inputs outputs sep ref_delimiter = (Returns trimmed_outputs, log) ->
  prompt_absent inputs trimmed_outputs = true ->
  exists log',
    postprocess_model_outputs inputs trimmed_outputs sep ref_delimiter
    = (Returns trimmed_outputs, log').
Proof.
  intros Hlen. destruct sep as [|c sep].
  - rewrite postprocess_model_outputs_empty_separator by assumption.
    destruct (no_candidates outputs); [|discriminate]. intros [= <- _] _.
    rewrite postprocess_model_outputs_empty_separator
      by (rewrite length_replicate; exact Hlen).
    rewrite no_candidates_replicate, length_replicate. eauto.
  - rewrite postprocess_model_outputs_returns by (assumption || discriminate).
    intros [= <- _] Habsent.
    rewrite postprocess_model_outputs_returns.
    + rewrite trimmed_groups_fixed by (assumption || discriminate). eauto.
    + unfold trimmed_groups. rewrite length_zip_with. lia.
    + discriminate.
Qed.

(** A second pass over the result of the story scenario. *)
Lemma postprocess_model_outputs_idempotent_witness :
  exists log',
    postprocess_model_outputs [lit "Tell me a story."] [[lit "Once upon a time."]] [LF; LF] None
    = (Returns [[lit "Once upon a time."]], log').
Proof.
  apply (postprocess_model_outputs_idempotent
           [lit "Tell me a story."]
           [[lit "Tell me a story. Once upon a time." ++ [LF; LF] ++ lit "The end"]]
           [LF; LF] None [[lit "Once upon a time."]] []);
    reflexivity.
Defined.

(** * Further properties of [reshape_model_outputs] *)

Lemma reshape_chunks_down (l : list str) (n k : Z) :
  0 <= n -> k < 0 -> reshape_chunks l n k = mret [].
Proof.
  intros Hn Hk. unfold reshape_chunks, range.
  destruct (Z.eqb_spec k 0); [lia|].
  unfold range_length. destruct (Z.ltb_spec 0 k); [lia|].
  destruct (Z.leb_spec 0 n); [|lia]. reflexivity.
Qed.

Lemma int_truediv_nonzero (a b : Z) : b <> 0 -> int_truediv a b = mret (Z.quot a b).
Proof. intros Hb. unfold int_truediv. destruct (Z.eqb_spec b 0); [lia|reflexivity]. Qed.

(** The outcome of the call in every case. *)
Lemma reshape_model_outputs_outcome (flat : list str) (input_batch_size : Z) :
  (reshape_model_outputs flat input_batch_size).1
  = if input_batch_size =? 0 then Raises ZeroDivisionError
    else if Z.quot (len flat) input_batch_size =? 0 then Raises ValueError
    else if (0 <? input_batch_size) && (len flat mod input_batch_size =? 0)
         then Returns (chunks (Z.to_nat (len flat / input_batch_size))
                         (Z.to_nat input_batch_size) flat)
         else Raises AssertionError.
Proof.
  assert (0 <= len flat) as Hn by (unfold len; lia).
  destruct (Z.eqb_spec input_batch_size 0) as [->|Hb0]; [reflexivity|].
  destruct (Z.eqb_spec (Z.quot (len flat) input_batch_size) 0) as [Hq|Hq].
  - unfold reshape_model_outputs.
    rewrite int_truediv_nonzero by assumption. rewrite bind_ret, Hq. reflexivity.
  - destruct (Z.ltb_spec 0 input_batch_size) as [Hpos|Hneg].
    + rewrite Z.quot_div_nonneg in Hq by lia.
      destruct (Z.eqb_spec (len flat mod input_batch_size) 0) as [Hmod|Hmod]; cbn [andb].
      * pose proof (Z.div_mod (len flat) input_batch_size Hb0) as Hdm.
        pose proof (Z.div_pos (len flat) input_batch_size Hn Hpos) as Hk.
        rewrite <- (Z2Nat.id input_batch_size) at 1 by lia.
        rewrite (reshape_model_outputs_exact flat (Z.to_nat input_batch_size)
                   (Z.to_nat (len flat / input_batch_size))); [reflexivity|lia|lia|].
        unfold len in *. nia.
      * assert (input_batch_size < len flat) as Hlt.
        { destruct (Z.lt_ge_cases input_batch_size (len flat)) as [?|Hge]; [assumption|].
          exfalso. destruct (Z.eq_dec (len flat) input_batch_size) as [He|He].
          - rewrite He, Z.mod_same in Hmod by lia. congruence.
          - rewrite Z.div_small in Hq by lia. congruence. }
        destruct (reshape_model_outputs_indivisible flat input_batch_size Hpos Hlt Hmod)
          as [log ->]. reflexivity.
    + cbn [andb]. unfold reshape_model_outputs.
      rewrite int_truediv_nonzero by assumption. rewrite bind_ret.
      assert (Z.quot (len flat) input_batch_size < 0) as Hk.
      { pose proof (Z.quot_opp_r (len flat) (- input_batch_size) ltac:(lia)) as Ho.
        rewrite Z.opp_involutive in Ho.
        pose proof (Z.quot_pos (len flat) (- input_batch_size) Hn ltac:(lia)). lia. }
      erewrite when_log_then; [reflexivity|].
      rewrite reshape_chunks_down, bind_ret by lia.
      assert ((len (@nil (list str)) =? input_batch_size) = false) as ->
        by (apply Z.eqb_neq; unfold len; simpl; lia).
      reflexivity.
Qed.

(** X1: the call returns exactly when the batch size is positive and the
    length of the flat list is a positive multiple of it. *)
Theorem reshape_model_outputs_returns_iff (flat : list str) (input_batch_size : Z) :
  (exists groups log, reshape_model_outputs flat input_batch_size = (Returns groups, log))
  <-> 0 < input_batch_size /\ 0 < len flat /\ len flat mod input_batch_size = 0.
Proof.
  pose proof (reshape_model_outputs_outcome flat input_batch_size) as Hout.
  assert (0 <= len flat) as Hn by (unfold len; lia).
  destruct (Z.eqb_spec input_batch_size 0) as [Hb0|Hb0].
  { split; [|lia]. intros (g & l & Hr). rewrite Hr in Hout. discriminate. }
  destruct (Z.eqb_spec (Z.quot (len flat) input_batch_size) 0) as [Hq|Hq].
  { split.
    - intros (g & l & Hr). rewrite Hr in Hout. discriminate.
    - intros (Hb & Hl & Hmod). exfalso. rewrite Z.quot_div_nonneg in Hq by lia.
      pose proof (Z.div_mod (len flat) input_batch_size Hb0). nia. }
  destruct (Z.ltb_spec 0 input_batch_size) as [Hpos|Hneg]; cbn [andb] in Hout.
  - destruct (Z.eqb_spec (len flat mod input_batch_size) 0) as [Hmod|Hmod].
    + split.
      * intros _. repeat split; try assumption.
        destruct (Z.eq_dec (len flat) 0) as [He|He]; [|lia].
        rewrite He in Hq. rewrite Z.quot_0_l in Hq by lia. congruence.
      * intros _. destruct (reshape_model_outputs flat input_batch_size) as [r l].
        simpl in Hout. subst r. eauto.
    + split; [|tauto]. intros (g & l & Hr). rewrite Hr in Hout. discriminate.
  - split; [|lia]. intros (g & l & Hr). rewrite Hr in Hout. discriminate.
Qed.

(** X2: a batch size of 0 raises ZeroDivisionError whatever the list is,
    and for every other batch size a list shorter than its absolute value,
    the empty list among them, raises ValueError. *)
Theorem reshape_model_outputs_degenerate (flat : list str) (input_batch_size : Z) :
  (input_batch_size = 0 ->
   reshape_model_outputs flat input_batch_size = (Raises ZeroDivisionError, []))
  /\ (input_batch_size <> 0 -> len flat < Z.abs input_batch_size ->
      reshape_model_outputs flat input_batch_size = (Raises ValueError, [])).
Proof.
  split.
  - intros ->. reflexivity.
  - intros Hb Hlt. unfold reshape_model_outputs.
    rewrite int_truediv_nonzero by assumption. rewrite bind_ret.
    assert (Z.quot (len flat) input_batch_size = 0) as ->.
    { apply Z.quot_small_iff; [lia|]. unfold len in *. lia. }
    reflexivity.
Qed.

Lemma reshape_model_outputs_degenerate_witness :
  reshape_model_outputs [lit "a"] 0 = (Raises ZeroDivisionError, [])
  /\ reshape_model_outputs [] 3 = (Raises ValueError, []).
Proof.
  split.
  - apply (reshape_model_outputs_degenerate [lit "a"] 0). reflexivity.
  - apply (reshape_model_outputs_degenerate [] 3); [discriminate | reflexivity].
Defined.

(** X3: a list longer than a positive batch size whose length is no
    multiple of it fails the first assertion, whether or not the INFO
    record was logged before. *)
Theorem reshape_model_outputs_assertion (flat : list str) (input_batch_size : Z) :
  0 < input_batch_size -> input_batch_size < len flat ->
  len flat mod input_batch_size <> 0 ->
  reshape_model_outputs flat input_batch_size
  = (Raises AssertionError,
     if 1 <? len flat / input_batch_size
     then [LogRecord INFO (MoreSequencesThanInputs (len flat) input_batch_size)]
     else []).
Proof.
  intros Hb Hn Hmod. unfold reshape_model_outputs.
  rewrite int_truediv_pos, bind_ret by lia.
  assert (0 <= len flat) as Hn0 by (unfold len; lia).
  rewrite Z.quot_div_nonneg by lia.
  set (k := len flat / input_batch_size).
  assert (1 <= k) as Hk by (apply Z.div_le_lower_bound; lia).
  pose proof (Z.div_mod (len flat) input_batch_size ltac:(lia)) as Hdm.
  pose proof (Z.mod_pos_bound (len flat) input_batch_size Hb) as Hr.
  fold k in Hdm.
  erewrite when_log_then; [rewrite app_nil_r; reflexivity|].
  rewrite reshape_chunks_up, bind_ret by lia.
  rewrite range_length_up by lia.
  assert (input_batch_size <= (len flat - 1) / k)
    by (apply Z.div_le_lower_bound; lia).
  match goal with |- context [len (?f <$> ?l) =? _] =>
    assert ((len (f <$> l) =? input_batch_size) = false) as ->
      by (apply Z.eqb_neq; unfold len at 1; rewrite length_fmap, length_seq; lia)
  end.
  reflexivity.
Qed.

Lemma reshape_model_outputs_assertion_witness :
  reshape_model_outputs [lit "a"; lit "b"; lit "c"; lit "d"; lit "e"] 2
  = (Raises AssertionError, [LogRecord INFO (MoreSequencesThanInputs 5 2)]).
Proof.
  apply (reshape_model_outputs_assertion [lit "a"; lit "b"; lit "c"; lit "d"; lit "e"] 2);
    [lia | reflexivity | discriminate].
Defined.

(** X4: on success the only record is at level INFO, and it is logged
    exactly when each input has more than one return sequence. *)
Theorem reshape_model_outputs_log (flat : list str) (input_batch_size k : Z)
    (groups : list (list str)) (log : list log_record) :
  0 < input_batch_size -> 1 <= k -> len flat = input_batch_size * k ->
  reshape_model_outputs flat input_batch_size = (Returns groups, log) ->
  log = if 1 <? k
        then [LogRecord INFO (MoreSequencesThanInputs (len flat) input_batch_size)]
        else [].
Proof.
  intros Hb Hk Hl.
  assert (length flat = (Z.to_nat input_batch_size * Z.to_nat k)%nat) as Hn
    by (unfold len in Hl; nia).
  pose proof (reshape_model_outputs_exact flat (Z.to_nat input_batch_size) (Z.to_nat k)
                ltac:(lia) ltac:(lia) Hn) as Hrun.
  rewrite !Z2Nat.id in Hrun by lia. rewrite Hrun. intros [= _ <-]. reflexivity.
Qed.

Lemma reshape_model_outputs_log_witness :
  [LogRecord INFO (MoreSequencesThanInputs 4 2)]
  = if 1 <? 2
    then [LogRecord INFO
            (MoreSequencesThanInputs (len [lit "a"; lit "b"; lit "c"; lit "d"]) 2)]
    else [].
Proof.
  apply (reshape_model_outputs_log [lit "a"; lit "b"; lit "c"; lit "d"] 2 2
           [[lit "a"; lit "b"]; [lit "c"; lit "d"]]);
    [lia | lia | reflexivity | reflexivity].
Defined.

(** * Further properties of [postprocess_model_outputs] *)

(** ** Inputs and groups of different number *)

Section Lengths.
Variables (inputs : list str) (outputs : list (list str)) (sep : str).
Hypothesis separator : sep <> [].

(** The rounds for the groups that have a prompt. *)
Lemma outer_loop_prompted (n m : nat) :
  (m <= length inputs)%nat -> (m <= length outputs)%nat -> (m <= n)%nat ->
  for_each (Z.of_nat <$> seq 0 m) (postprocess_group inputs outputs sep) (replicate n [])
  = (Returns (trimmed_groups (take m inputs) (take m outputs) sep ++ replicate (n - m) []),
     warnings (take m inputs) (take m outputs) sep).
Proof.
  induction m as [|m IH]; intros Hi Hm Hn.
  - rewrite Nat.sub_0_r. reflexivity.
  - destruct (lookup_lt_is_Some_2 outputs m ltac:(lia)) as [group Hg].
    destruct (lookup_lt_is_Some_2 inputs m ltac:(lia)) as [prompt Hp].
    rewrite seq_S, fmap_app, for_each_app. change (0 + m)%nat with m.
    rewrite fmap_cons, fmap_nil.
    assert (length (trimmed_groups (take m inputs) (take m outputs) sep) = m) as Hdone.
    { unfold trimmed_groups. rewrite length_zip_with, !length_take. lia. }
    erewrite bind_returns; [ | apply IH; lia | ].
    2:{ rewrite for_each_singleton. unfold postprocess_group.
        rewrite (getitem_lookup _ _ _ Hg), bind_ret.
        apply inner_loop_returns; [assumption|eassumption|].
        rewrite length_app, length_replicate. lia. }
    rewrite alter_app_r_alt by lia. rewrite Hdone, Nat.sub_diag.
    replace (n - m)%nat with (S (n - S m)) by lia. cbn [replicate alter list_alter].
    rewrite (take_S_r _ _ _ Hg), (take_S_r _ _ _ Hp).
    unfold trimmed_groups, warnings.
    rewrite !zip_with_app by (rewrite !length_take; lia).
    rewrite concat_app, <- app_assoc. simpl. rewrite app_nil_r. reflexivity.
Qed.

(** A round for a group without a prompt: [inputs[i]] raises on its first
    candidate. *)
Lemma postprocess_group_unprompted (i : nat) (group : list str)
    (trimmed_outputs : list (list str)) :
  (length inputs <= i)%nat -> outputs !! i = Some group ->
  postprocess_group inputs outputs sep trimmed_outputs (Z.of_nat i)
  = match group with [] => mret trimmed_outputs | _ :: _ => raise IndexError end.
Proof.
  intros Hi Hg. unfold postprocess_group.
  rewrite (getitem_lookup _ _ _ Hg), bind_ret.
  destruct group as [|s group]; [reflexivity|]. cbn [for_each].
  unfold postprocess_candidate. rewrite getitem_out_of_range by assumption. reflexivity.
Qed.

(** The rounds for the groups without a prompt. *)
Lemma outer_loop_unprompted (m k : nat) (trimmed_outputs : list (list str)) :
  (length inputs <= m)%nat -> (m + k <= length outputs)%nat ->
  for_each (Z.of_nat <$> seq m k) (postprocess_group inputs outputs sep) trimmed_outputs
  = if no_candidates (take k (drop m outputs)) then mret trimmed_outputs
    else raise IndexError.
Proof.
  intros Hm. induction k as [|k IH]; intros Hk; [reflexivity|].
  destruct (lookup_lt_is_Some_2 outputs (m + k) ltac:(lia)) as [group Hg].
  rewrite seq_S, fmap_app, for_each_app, IH by lia.
  assert (drop m outputs !! k = Some group) as Hd by (rewrite lookup_drop; exact Hg).
  rewrite (take_S_r _ _ _ Hd). unfold no_candidates. rewrite forallb_app.
  fold (no_candidates (take k (drop m outputs))).
  destruct (no_candidates (take k (drop m outputs))); [|reflexivity].
  rewrite bind_ret, fmap_cons, fmap_nil, for_each_singleton.
  rewrite (postprocess_group_unprompted (m + k) _ _ ltac:(lia) Hg).
  destruct group; reflexivity.
Qed.

Lemma trimmed_groups_take (m : nat) :
  m = (length inputs `min` length outputs)%nat ->
  trimmed_groups (take m inputs) (take m outputs) sep = trimmed_groups inputs outputs sep.
Proof.
  intros ->. unfold trimmed_groups. rewrite <- zip_with_take.
  apply take_ge. rewrite length_zip_with. lia.
Qed.

Lemma warnings_take (m : nat) :
  m = (length inputs `min` length outputs)%nat ->
  warnings (take m inputs) (take m outputs) sep = warnings inputs outputs sep.
Proof.
  intros ->. unfold warnings. rewrite <- zip_with_take. f_equal.
  apply take_ge. rewrite length_zip_with. lia.
Qed.

(** The call for any number of inputs: the groups that have a prompt are
    trimmed; the first non-empty group without one raises IndexError. *)
Lemma postprocess_model_outputs_any_lengths (ref_delimiter : option str) :
  postprocess_model_outputs inputs outputs sep ref_delimiter
  = (if no_candidates (drop (length inputs) outputs)
     then Returns (trimmed_groups inputs outputs sep
                   ++ replicate (length outputs - length inputs) [])
     else Raises IndexError,
     warnings inputs outputs sep).
Proof.
  unfold postprocess_model_outputs, len.
  rewrite length_replicate, range_len, bind_ret.
  set (n := length outputs). set (m := (length inputs `min` n)%nat).
  assert (forall acc : list (list str),
             for_each (Z.of_nat <$> seq m (n - m)) (postprocess_group inputs outputs sep) acc
             = (if no_candidates (drop (length inputs) outputs)
                then Returns acc else Raises IndexError, [])) as Hsurplus.
  { intros acc. destruct (Nat.le_gt_cases (length inputs) n) as [Hle|Hgt].
    - rewrite outer_loop_unprompted by (unfold n in *; lia).
      replace m with (length inputs) by lia.
      rewrite take_ge by (rewrite length_drop; unfold n; lia).
      destruct (no_candidates (drop (length inputs) outputs)); reflexivity.
    - replace (n - m)%nat with 0%nat by lia.
      rewrite drop_ge by (unfold n in *; lia). reflexivity. }
  replace n with (m + (n - m))%nat at 1 by lia.
  rewrite seq_app, fmap_app, for_each_app. change (0 + m)%nat with m.
  erewrite bind_returns;
    [ | apply outer_loop_prompted; unfold n in *; lia | apply Hsurplus ].
  rewrite app_nil_r, trimmed_groups_take, warnings_take by reflexivity.
  destruct (no_candidates (drop (length inputs) outputs)) eqn:Hnone.
  - replace (n - m)%nat with (length outputs - length inputs)%nat by (unfold m, n; lia).
    reflexivity.
  - reflexivity.
Qed.
End Lengths.

(** X5: prompts beyond the number of groups are never looked at: the
    call returns what it returns for the inputs cut to the number of
    groups. *)
Theorem postprocess_model_outputs_surplus_inputs
    (inputs : list str) (outputs : list (list str)) (sep : str) (ref_delimiter : option str) :
  sep <> [] -> (length outputs <= length inputs)%nat ->
  postprocess_model_outputs inputs outputs sep ref_delimiter
  = postprocess_model_outputs (take (length outputs) inputs) outputs sep ref_delimiter
  /\ exists trimmed_outputs log,
       postprocess_model_outputs inputs outputs sep ref_delimiter
       = (Returns trimmed_outputs, log).
Proof.
  intros Hsep Hlen. rewrite !postprocess_model_outputs_any_lengths by assumption.
  rewrite length_take, Nat.min_l by assumption.
  rewrite !drop_ge by lia.
  rewrite <- (trimmed_groups_take inputs outputs sep (length outputs)) by lia.
  rewrite <- (warnings_take inputs outputs sep (length outputs)) by lia.
  rewrite (take_ge outputs) by lia.
  replace (length outputs - length inputs)%nat with 0%nat by lia.
  rewrite Nat.sub_diag. split; [reflexivity|]. cbn [no_candidates forallb]. eauto.
Qed.

Lemma postprocess_model_outputs_surplus_inputs_witness :
  postprocess_model_outputs [lit "p"; lit "q"; lit "r"] [[lit "p x"]] [LF; LF] None
  = postprocess_model_outputs (take (length [[lit "p x"]]) [lit "p"; lit "q"; lit "r"])
      [[lit "p x"]] [LF; LF] None
  /\ exists trimmed_outputs log,
       postprocess_model_outputs [lit "p"; lit "q"; lit "r"] [[lit "p x"]] [LF; LF] None
       = (Returns trimmed_outputs, log).
Proof.
  apply (postprocess_model_outputs_surplus_inputs
           [lit "p"; lit "q"; lit "r"] [[lit "p x"]] [LF; LF] None);
    [discriminate | simpl; lia].
Defined.

(** X6: with fewer inputs than groups, the groups that have a prompt are
    trimmed and their warnings logged; then the call raises IndexError if
    any group without a prompt holds a candidate, and otherwise returns
    with those groups left empty. *)
Theorem postprocess_model_outputs_missing_inputs
    (inputs : list str) (outputs : list (list str)) (sep : str) (ref_delimiter : option str) :
  sep <> [] -> (length inputs < length outputs)%nat ->
  postprocess_model_outputs inputs outputs sep ref_delimiter
  = (if no_candidates (drop (length inputs) outputs)
     then Returns (trimmed_groups inputs (take (length inputs) outputs) sep
                   ++ replicate (length outputs - length inputs) [])
     else Raises IndexError,
     warnings inputs (take (length inputs) outputs) sep).
Proof.
  intros Hsep Hlen. rewrite postprocess_model_outputs_any_lengths by assumption.
  rewrite <- (trimmed_groups_take inputs outputs sep (length inputs)) by lia.
  rewrite <- (warnings_take inputs outputs sep (length inputs)) by lia.
  rewrite (take_ge inputs) by lia. reflexivity.
Qed.

Lemma postprocess_model_outputs_missing_inputs_witness :
  postprocess_model_outputs [lit "p"] [[lit "p x"]; [lit "y"]] [LF; LF] None
  = (Raises IndexError,
     [LogRecord WARNING (PotentiallyUnfinished [LF; LF] (lit "x") (lit "x"))]).
Proof.
  apply (postprocess_model_outputs_missing_inputs
           [lit "p"] [[lit "p x"]; [lit "y"]] [LF; LF] None);
    [discriminate | simpl; lia].
Defined.

(** X7: with the empty separator and as many inputs as groups, the call
    raises ValueError on the first candidate and logs nothing; it returns,
    with every group empty, only when there is no candidate at all. *)
Theorem postprocess_model_outputs_empty_separator_outcome
    (inputs : list str) (outputs : list (list str)) (ref_delimiter : option str) :
  length inputs = length outputs ->
  postprocess_model_outputs inputs outputs [] ref_delimiter
  = if no_candidates outputs then (Returns outputs, []) else (Raises ValueError, []).
Proof.
  intros Hlen. rewrite postprocess_model_outputs_empty_separator by assumption.
  destruct (no_candidates outputs) eqn:Hnone; [|reflexivity].
  unfold mret, Py_ret, ret. do 2 f_equal.
  clear Hlen. induction outputs as [|g outputs IH]; [reflexivity|].
  simpl in Hnone. destruct g; [|discriminate]. simpl. f_equal. apply IH. exact Hnone.
Qed.

Lemma postprocess_model_outputs_empty_separator_outcome_witness :
  postprocess_model_outputs [lit "p"; lit "q"] [[]; [lit "q y"]] [] None
  = (Raises ValueError, []).
Proof.
  apply (postprocess_model_outputs_empty_separator_outcome
           [lit "p"; lit "q"] [[]; [lit "q y"]] None).
  reflexivity.
Defined.

(** ** What every returned string satisfies *)

(** A round of the inner loop that returns has appended one trimmed
    candidate to one group. *)
Lemma postprocess_candidate_returns_inv (inputs : list str) (sep : str) (i : Z)
    (out_seq : str) (trimmed_outputs trimmed_outputs' : list (list str))
    (log : list log_record) :
  postprocess_candidate inputs sep i trimmed_outputs out_seq = (Returns trimmed_outputs', log) ->
  exists (prompt : str) (j : nat),
    prompt ∈ inputs
    /\ trimmed_outputs' = alter (fun g => g ++ [trimmed out_seq prompt sep]) j trimmed_outputs.
Proof.
  unfold postprocess_candidate.
  intros (prompt & ? & ? & Hp & Hrest & _)%bind_returns_inv.
  apply getitem_returns_inv in Hp as [Hp _].
  apply bind_returns_inv in Hrest as (segments & ? & ? & Hsplit & Hrest & _).
  apply split_returns_inv in Hsplit as (Hsep & rest & ->).
  apply bind_returns_inv in Hrest as (_ & ? & ? & _ & Hrest & _).
  change 0 with (Z.of_nat 0) in Hrest.
  rewrite (getitem_lookup (_ :: rest) 0 _ eq_refl), bind_ret in Hrest.
  apply append_at_returns_inv in Hrest as (j & ->).
  exists prompt, j. split; [exact Hp|reflexivity].
Qed.

(** What holds of every trimmed candidate holds of every string of a
    returned result, whatever the inputs, the groups and the separator. *)
Lemma postprocess_model_outputs_all (P : str -> Prop)
    (inputs : list str) (outputs : list (list str)) (sep : str) (ref_delimiter : option str)
    (trimmed_outputs : list (list str)) (log : list log_record) :
  (forall out_seq prompt, P (trimmed out_seq prompt sep)) ->
  postprocess_model_outputs inputs outputs sep ref_delimiter = (Returns trimmed_outputs, log) ->
  Forall (Forall P) trimmed_outputs.
Proof.
  intros HP. unfold postprocess_model_outputs.
  intros (idx & ? & ? & _ & Hloop & _)%bind_returns_inv.
  eapply for_each_invariant; [| |exact Hloop].
  - intros acc i acc' l Hacc. unfold postprocess_group.
    intros (group & ? & ? & _ & Hinner & _)%bind_returns_inv.
    eapply for_each_invariant; [|exact Hacc|exact Hinner].
    intros acc1 s acc2 l2 Hacc1 (prompt & j & _ & ->)%postprocess_candidate_returns_inv.
    apply Forall_alter; [exact Hacc1|]. intros g _ Hg.
    apply Forall_app. split; [exact Hg|]. apply Forall_singleton. apply HP.
  - apply Forall_replicate. constructor.
Qed.

Lemma strip_head (s : str) (c : char) : head (strip s) = Some c -> isspace c = false.
Proof.
  intros Hc. assert (lstrip (strip s) = strip s) as Hfix
    by (unfold strip; apply lstrip_rstrip, lstrip_idemp).
  apply lstrip_fixed in Hfix. destruct (strip s); [discriminate|].
  injection Hc as <-. exact Hfix.
Qed.

Lemma strip_last (s : str) (c : char) : last (strip s) = Some c -> isspace c = false.
Proof.
  unfold strip, rstrip. rewrite last_reverse. intros Hc.
  pose proof (lstrip_head (reverse (lstrip s))) as Hh.
  destruct (lstrip (reverse (lstrip s))); [discriminate|].
  injection Hc as <-. exact Hh.
Qed.

(** X8: no returned string begins or ends with white space: stripping
    it again changes nothing, and its first and last code points, if
    any, are not white space. *)
Theorem postprocess_model_outputs_stripped
    (inputs : list str) (outputs : list (list str)) (sep : str) (ref_delimiter : option str)
    (trimmed_outputs : list (list str)) (log : list log_record) :
  postprocess_model_outputs inputs outputs sep ref_delimiter = (Returns trimmed_outputs, log) ->
  forall (group : list str) (t : str),
    group ∈ trimmed_outputs -> t ∈ group ->
    strip t = t
    /\ (forall c, head t = Some c -> isspace c = false)
    /\ (forall c, last t = Some c -> isspace c = false).
Proof.
  intros Hrun group t Hgroup Ht.
  pose proof (postprocess_model_outputs_all
                (fun t => strip t = t
                          /\ (forall c, head t = Some c -> isspace c = false)
                          /\ (forall c, last t = Some c -> isspace c = false))
                inputs outputs sep ref_delimiter trimmed_outputs log) as Hall.
  cbv beta in Hall. rewrite Forall_forall in Hall.
  specialize (Hall ltac:(intros out_seq prompt; unfold trimmed;
                         split; [apply strip_idemp|];
                         split; intros c; [apply strip_head|apply strip_last])
                   Hrun group Hgroup).
  rewrite Forall_forall in Hall. apply Hall. exact Ht.
Qed.

Lemma postprocess_model_outputs_stripped_witness :
  strip (lit "hello") = lit "hello"
  /\ (forall c, head (lit "hello") = Some c -> isspace c = false)
  /\ (forall c, last (lit "hello") = Some c -> isspace c = false).
Proof.
  apply (postprocess_model_outputs_stripped
           [lit "Say hi."] [[lit "Say hi.  hello  "]] [LF; LF] None
           [[lit "hello"]]
           [LogRecord WARNING (PotentiallyUnfinished [LF; LF] (lit "hello") (lit "hello"))]
           eq_refl [lit "hello"] (lit "hello"));
    apply list_elem_of_here.
Defined.

(** ** The string returned for one candidate *)

(** For a non-empty separator, a returning call has a prompt for every
    candidate, and returns its trimmed form in the same place. *)
Lemma postprocess_model_outputs_lookup
    (inputs : list str) (outputs : list (list str)) (sep : str) (ref_delimiter : option str)
    (trimmed_outputs : list (list str)) (log : list log_record)
    (i j : nat) (group : list str) (out_seq : str) :
  sep <> [] ->
  postprocess_model_outputs inputs outputs sep ref_delimiter = (Returns trimmed_outputs, log) ->
  outputs !! i = Some group -> group !! j = Some out_seq ->
  exists prompt group',
    inputs !! i = Some prompt
    /\ trimmed_outputs !! i = Some group'
    /\ group' !! j = Some (trimmed out_seq prompt sep).
Proof.
  intros Hsep Hrun Hg Hs.
  rewrite postprocess_model_outputs_any_lengths in Hrun by assumption.
  destruct (no_candidates (drop (length inputs) outputs)) eqn:Hnone; [|discriminate].
  injection Hrun as <- _.
  destruct (inputs !! i) as [prompt|] eqn:Hp.
  - destruct (lookup_trimmed_groups inputs outputs sep i j _ _ _ Hp Hg Hs)
      as (group' & Hi & Hj).
    exists prompt, group'. split; [reflexivity|]. split; [|exact Hj].
    rewrite lookup_app_l; [exact Hi|]. eapply lookup_lt_Some. exact Hi.
  - exfalso. apply lookup_ge_None in Hp.
    unfold no_candidates in Hnone. rewrite forallb_forall in Hnone.
    assert (drop (length inputs) outputs !! (i - length inputs)%nat = Some group) as Hd.
    { rewrite lookup_drop. rewrite <- Hg. f_equal. lia. }
    specialize (Hnone group ltac:(apply list_elem_of_In; eapply list_elem_of_lookup_2; exact Hd)).
    destruct group; [discriminate Hs|discriminate Hnone].
Qed.

Lemma length_lstrip (s : str) : (length (lstrip s) <= length s)%nat.
Proof. destruct (lstrip_suffix s) as [pre H]. rewrite H at 2. rewrite length_app. lia. Qed.

Lemma length_strip (s : str) : (length (strip s) <= length s)%nat.
Proof.
  destruct (strip_substring s) as (pre & post & H). rewrite H at 2.
  rewrite !length_app. lia.
Qed.

Lemma length_first_segment (s sep : str) : (length (first_segment s sep) <= length s)%nat.
Proof.
  unfold first_segment. destruct (find s sep); [|lia]. rewrite length_take. lia.
Qed.

Lemma length_replace_from (fuel : nat) (s old : str) :
  (length (replace_from fuel s old []) <= length s)%nat.
Proof.
  revert s. induction fuel as [|fuel IH]; intros s; cbn [replace_from]; [lia|].
  destruct (find s old) as [i|]; [|lia].
  rewrite app_nil_l, length_app, length_take.
  specialize (IH (drop (i + length old) s)). rewrite length_drop in IH. lia.
Qed.

Lemma length_replace (s old : str) : (length (replace s old []) <= length s)%nat.
Proof.
  destruct old as [|c old].
  - rewrite replace_empty_prompt. lia.
  - apply length_replace_from.
Qed.

Lemma length_trimmed (out_seq prompt sep : str) :
  (length (trimmed out_seq prompt sep) <= length out_seq)%nat.
Proof.
  unfold trimmed, cleaned.
  pose proof (length_strip (first_segment (strip (replace out_seq prompt [])) sep)).
  pose proof (length_first_segment (strip (replace out_seq prompt [])) sep).
  pose proof (length_strip (replace out_seq prompt [])).
  pose proof (length_replace out_seq prompt). lia.
Qed.

(** X9: the string returned for a candidate stands where the candidate
    stood and is never longer than it. *)
Theorem postprocess_model_outputs_never_longer
    (inputs : list str) (outputs : list (list str)) (sep : str) (ref_delimiter : option str)
    (trimmed_outputs : list (list str)) (log : list log_record)
    (i j : nat) (group : list str) (out_seq : str) :
  sep <> [] ->
  postprocess_model_outputs inputs outputs sep ref_delimiter = (Returns trimmed_outputs, log) ->
  outputs !! i = Some group -> group !! j = Some out_seq ->
  exists group' t,
    trimmed_outputs !! i = Some group' /\ group' !! j = Some t
    /\ (length t <= length out_seq)%nat.
Proof.
  intros Hsep Hrun Hg Hs.
  destruct (postprocess_model_outputs_lookup _ _ _ _ _ _ _ _ _ _ Hsep Hrun Hg Hs)
    as (prompt & group' & _ & Hi & Hj).
  exists group', (trimmed out_seq prompt sep).
  split; [exact Hi|]. split; [exact Hj|]. apply length_trimmed.
Qed.

Lemma postprocess_model_outputs_never_longer_witness :
  exists group' t,
    [[lit "Once upon a time."]] !! 0%nat = Some group' /\ group' !! 0%nat = Some t
    /\ (length t
        <= length (lit "Tell me a story. Once upon a time." ++ [LF; LF] ++ lit "The end"))%nat.
Proof.
  apply (postprocess_model_outputs_never_longer
           [lit "Tell me a story."]
           [[lit "Tell me a story. Once upon a time." ++ [LF; LF] ++ lit "The end"]]
           [LF; LF] None [[lit "Once upon a time."]] [] 0 0
           [lit "Tell me a story. Once upon a time." ++ [LF; LF] ++ lit "The end"]
           (lit "Tell me a story. Once upon a time." ++ [LF; LF] ++ lit "The end"));
    [discriminate | reflexivity | reflexivity | reflexivity].
Defined.

(** The leftmost occurrence: where [sub] starts at [j], [find] answers an
    index up to [j]. *)
Lemma find_le (s sub : str) (j : nat) :
  startswith (drop j s) sub = true -> exists i, find s sub = Some i /\ (i <= j)%nat.
Proof.
  revert j. induction s as [|c s IH]; intros j Hj; rewrite find_unfold.
  - rewrite drop_nil in Hj. rewrite Hj. exists 0%nat. split; [reflexivity|lia].
  - destruct (startswith (c :: s) sub) eqn:E.
    + exists 0%nat. split; [reflexivity|lia].
    + destruct j as [|j]; [rewrite drop_0 in Hj; congruence|].
      destruct (IH j Hj) as (i & -> & Hi). exists (S i). split; [reflexivity|lia].
Qed.

(** The first segment of [a ++ sep ++ b] is [a] when no occurrence of
    the separator starts inside [a]. *)
Lemma first_segment_leftmost (a sep b : str) :
  ~ occurs sep (a ++ take (length sep - 1) sep) ->
  first_segment (a ++ sep ++ b) sep = a.
Proof.
  intros Hfree.
  destruct (find_le (a ++ sep ++ b) sep (length a) (occurs_startswith sep a b))
    as (i & Hfind & Hi).
  unfold first_segment. rewrite Hfind.
  destruct (Nat.eq_dec i (length a)) as [->|Hne]; [apply take_app_length|].
  exfalso. apply Hfree.
  pose proof (find_Some_split _ _ _ Hfind) as Hs.
  assert (0 < length sep)%nat as Hsep.
  { destruct sep; [|simpl; lia]. exfalso. apply Hfree.
    exists [], a. rewrite app_nil_r. reflexivity. }
  exists (take i a), (take (length a + (length sep - 1) - (i + length sep))
                        (drop (i + length sep) (a ++ sep ++ b))).
  apply (f_equal (take (length a + (length sep - 1)))) in Hs.
  rewrite (app_assoc a sep b) in Hs at 1.
  rewrite take_app_le in Hs by (rewrite length_app; lia).
  rewrite take_app in Hs at 1.
  replace (length a + (length sep - 1) - length a)%nat with (length sep - 1)%nat in Hs by lia.
  rewrite (take_ge a) in Hs by lia.
  rewrite Hs.
  rewrite take_app, length_take, length_app.
  rewrite (take_ge (take i (a ++ sep ++ b))) by (rewrite length_take; lia).
  rewrite take_app_le by lia. f_equal.
  rewrite take_app, (take_ge sep) by lia. f_equal. f_equal. lia.
Qed.

(** X10: when the candidate, prompt removed and stripped, reads
    [a ++ sep ++ b] and no occurrence of the separator starts inside [a],
    the string returned for it is [a] stripped: what follows the first
    separator is dropped. *)
Theorem postprocess_model_outputs_cuts_at_separator
    (inputs : list str) (outputs : list (list str)) (sep : str) (ref_delimiter : option str)
    (trimmed_outputs : list (list str)) (log : list log_record)
    (i j : nat) (prompt : str) (group : list str) (out_seq a b : str) :
  sep <> [] ->
  postprocess_model_outputs inputs outputs sep ref_delimiter = (Returns trimmed_outputs, log) ->
  inputs !! i = Some prompt -> outputs !! i = Some group -> group !! j = Some out_seq ->
  strip (replace out_seq prompt []) = a ++ sep ++ b ->
  ~ occurs sep (a ++ take (length sep - 1) sep) ->
  exists group', trimmed_outputs !! i = Some group' /\ group' !! j = Some (strip a).
Proof.
  intros Hsep Hrun Hp Hg Hs Hclean Hfree.
  destruct (postprocess_model_outputs_lookup _ _ _ _ _ _ _ _ _ _ Hsep Hrun Hg Hs)
    as (prompt' & group' & Hp' & Hi & Hj).
  rewrite Hp in Hp'. injection Hp' as <-.
  exists group'. split; [exact Hi|]. rewrite Hj. f_equal.
  unfold trimmed, cleaned. rewrite Hclean, first_segment_leftmost by assumption.
  reflexivity.
Qed.

Lemma postprocess_model_outputs_cuts_at_separator_witness :
  exists group',
    [[lit "Once upon a time."]] !! 0%nat = Some group'
    /\ group' !! 0%nat = Some (strip (lit "Once upon a time.")).
Proof.
  apply (postprocess_model_outputs_cuts_at_separator
           [lit "Tell me a story."]
           [[lit "Tell me a story. Once upon a time." ++ [LF; LF] ++ lit "The end"]]
           [LF; LF] None [[lit "Once upon a time."]] [] 0 0
           (lit "Tell me a story.")
           [lit "Tell me a story. Once upon a time." ++ [LF; LF] ++ lit "The end"]
           (lit "Tell me a story. Once upon a time." ++ [LF; LF] ++ lit "The end")
           (lit "Once upon a time.") (lit "The end"));
    [discriminate | reflexivity | reflexivity | reflexivity | reflexivity | reflexivity | ].
  intros Hocc. apply contains_occurs in Hocc. vm_compute in Hocc. discriminate.
Defined.

Lemma replace_prefix (prompt rest : str) :
  prompt <> [] -> replace (prompt ++ rest) prompt [] = replace rest prompt [].
Proof.
  intros Hp. rewrite (replace_unfold (prompt ++ rest)) by assumption.
  assert (find (prompt ++ rest) prompt = Some 0%nat) as ->.
  { rewrite find_unfold.
    assert (startswith (prompt ++ rest) prompt = true) as ->; [|reflexivity].
    apply startswith_app. eauto. }
  rewrite take_0, !app_nil_l. cbn [Nat.add]. rewrite drop_app_length. reflexivity.
Qed.

(** X11: the prompt echo.  For a candidate that starts with its
    non-empty prompt and does not hold it again after that, the string
    returned is built from the continuation alone; a candidate that does
    not hold its prompt at all is treated as it is, without an error. *)
Theorem postprocess_model_outputs_prompt_echo
    (inputs : list str) (outputs : list (list str)) (sep : str) (ref_delimiter : option str)
    (trimmed_outputs : list (list str)) (log : list log_record)
    (i j : nat) (prompt : str) (group : list str) (out_seq continuation : str) :
  sep <> [] ->
  postprocess_model_outputs inputs outputs sep ref_delimiter = (Returns trimmed_outputs, log) ->
  inputs !! i = Some prompt -> outputs !! i = Some group -> group !! j = Some out_seq ->
  contains continuation prompt = false ->
  out_seq = prompt ++ continuation \/ out_seq = continuation ->
  exists group',
    trimmed_outputs !! i = Some group'
    /\ group' !! j = Some (strip (first_segment (strip continuation) sep)).
Proof.
  intros Hsep Hrun Hp Hg Hs Habsent Hshape.
  destruct (postprocess_model_outputs_lookup _ _ _ _ _ _ _ _ _ _ Hsep Hrun Hg Hs)
    as (prompt' & group' & Hp' & Hi & Hj).
  rewrite Hp in Hp'. injection Hp' as <-.
  exists group'. split; [exact Hi|]. rewrite Hj. f_equal.
  unfold trimmed, cleaned.
  assert (prompt <> []) as Hne.
  { intros ->. unfold contains in Habsent. rewrite find_unfold in Habsent.
    destruct continuation; discriminate. }
  destruct Hshape as [-> | ->].
  - rewrite replace_prefix, replace_absent by assumption. reflexivity.
  - rewrite replace_absent by assumption. reflexivity.
Qed.

Lemma postprocess_model_outputs_prompt_echo_witness :
  exists group',
    [[lit "hello"]] !! 0%nat = Some group'
    /\ group' !! 0%nat = Some (strip (first_segment (strip (lit " hello ")) [LF; LF])).
Proof.
  apply (postprocess_model_outputs_prompt_echo
           [lit "Say hi."] [[lit "Say hi. hello "]] [LF; LF] None
           [[lit "hello"]]
           [LogRecord WARNING (PotentiallyUnfinished [LF; LF] (lit "hello") (lit "hello"))]
           0 0 (lit "Say hi.") [lit "Say hi. hello "] (lit "Say hi. hello ") (lit " hello "));
    [discriminate | reflexivity | reflexivity | reflexivity | reflexivity | reflexivity
    | left; reflexivity].
Defined.

(** ** The log *)

Lemma slice_preview (c : str) :
  slice c 0 50 = take 50 c /\ slice c (-50) (len c) = drop (length c - 50) c.
Proof.
  split.
  - apply (slice_prefix c 50). lia.
  - unfold slice, slice_bound, len. change (-50 <? 0) with true. cbv iota.
    assert ((Z.of_nat (length c) <? 0) = false) as -> by (apply Z.ltb_ge; lia).
    rewrite Z.min_id.
    replace (Z.to_nat (Z.max 0 (-50 + Z.of_nat (length c)))) with (length c - 50)%nat by lia.
    apply take_ge. rewrite length_drop. lia.
Qed.

Lemma warning_of_record (out_seq prompt sep : str) :
  warning_of out_seq prompt sep
  = warning_record sep <$> filter (fun c => contains c sep = false) [cleaned out_seq prompt].
Proof.
  unfold warning_of, warning_record.
  destruct (slice_preview (cleaned out_seq prompt)) as [-> ->].
  destruct (contains (cleaned out_seq prompt) sep) eqn:Hc.
  - rewrite filter_cons_False by congruence. reflexivity.
  - rewrite filter_cons_True by assumption. reflexivity.
Qed.

Lemma warnings_group (group : list str) (prompt sep : str) :
  concat ((fun s => warning_of s prompt sep) <$> group)
  = warning_record sep
      <$> filter (fun c => contains c sep = false) ((fun s => cleaned s prompt) <$> group).
Proof.
  induction group as [|s group IH]; [reflexivity|].
  rewrite !fmap_cons. cbn [concat]. rewrite IH, warning_of_record.
  change (cleaned s prompt :: ((fun s => cleaned s prompt) <$> group))
    with ([cleaned s prompt] ++ ((fun s => cleaned s prompt) <$> group)).
  rewrite filter_app, fmap_app. reflexivity.
Qed.

Lemma warnings_unfinished (inputs : list str) (outputs : list (list str)) (sep : str) :
  warnings inputs outputs sep = warning_record sep <$> unfinished_candidates inputs outputs sep.
Proof.
  unfold warnings, unfinished_candidates. revert outputs.
  induction inputs as [|p inputs IH]; intros [|g outputs]; try reflexivity.
  cbn [zip_with concat]. rewrite fmap_app, IH, warnings_group. reflexivity.
Qed.

(** X12: for a non-empty separator the log holds, whether the call
    returns or raises IndexError, exactly one WARNING per candidate of a
    prompted group whose split found no separator, in the order of the
    loops, each with the first 50 and the last 50 code points of the
    prompt-free, stripped candidate; candidates that hold the separator
    leave no record. *)
Theorem postprocess_model_outputs_log
    (inputs : list str) (outputs : list (list str)) (sep : str) (ref_delimiter : option str) :
  sep <> [] ->
  (postprocess_model_outputs inputs outputs sep ref_delimiter).2
  = warning_record sep <$> unfinished_candidates inputs outputs sep.
Proof.
  intros Hsep. rewrite postprocess_model_outputs_any_lengths by assumption.
  apply warnings_unfinished.
Qed.

Lemma postprocess_model_outputs_log_witness :
  (postprocess_model_outputs [lit "p"; lit "q"]
     [[lit "p x"; lit "p y" ++ [LF; LF] ++ lit "z"]; [lit "w"]] [LF; LF] None).2
  = [warning_record [LF; LF] (lit "x"); warning_record [LF; LF] (lit "w")].
Proof.
  apply (postprocess_model_outputs_log [lit "p"; lit "q"]
           [[lit "p x"; lit "p y" ++ [LF; LF] ++ lit "z"]; [lit "w"]] [LF; LF] None).
  discriminate.
Defined.

(** * [set_max_memory] *)

Lemma range1_seq (stop : Z) : range1 stop = Z.of_nat <$> seq 0 (Z.to_nat stop).
Proof.
  unfold range1, range. change (1 =? 0) with false. cbv iota.
  unfold mret, Py_ret, ret.
  assert (Z.to_nat (range_length 0 stop 1) = Z.to_nat stop) as ->.
  { unfold range_length. change (0 <? 1) with true. cbv iota.
    destruct (Z.leb_spec stop 0); [lia|]. rewrite Z.div_1_r. lia. }
  apply list_fmap_ext. intros _ j _. lia.
Qed.

Lemma elem_of_range1 (stop i : Z) : i ∈ range1 stop <-> 0 <= i < stop.
Proof.
  rewrite range1_seq, list_elem_of_fmap. split.
  - intros (j & -> & Hj). apply list_elem_of_In, in_seq in Hj. lia.
  - intros Hi. exists (Z.to_nat i). split; [lia|].
    apply list_elem_of_In, in_seq. lia.
Qed.

Lemma SFeqb_one (m : spec_float) : SFeqb m float_1_0 = true <-> m = float_1_0.
Proof.
  split; [|intros ->; reflexivity].
  unfold SFeqb, float_1_0. destruct m as [s|s| |s m e]; try discriminate.
  - destruct s; discriminate.
  - destruct s; [discriminate|]. cbn [SFcompare].
    destruct (Z.compare_spec e (-52)) as [->|?|?]; try discriminate.
    destruct (PosDef.Pos.compare_cont Eq m 4503599627370496) eqn:Hc; try discriminate.
    intros _. apply (Pos.compare_eq m 4503599627370496) in Hc. subst m. reflexivity.
Qed.

Lemma truthy_false (m : spec_float) :
  MaxMemory.truthy m = false <-> exists s, m = S754_zero s.
Proof.
  unfold MaxMemory.truthy, SFeqb, float_0_0. destruct m as [s|s| |s m e]; cbn [SFcompare].
  - split; [eauto|reflexivity].
  - split; [destruct s; discriminate|intros [? [=]]].
  - split; [discriminate|intros [? [=]]].
  - split; [destruct s; discriminate|intros [? [=]]].
Qed.

(** X13: no memory map is built, and nothing is logged, exactly when
    [max_memory] is None, a zero or 1.0 (the default of the command line),
    or there are fewer than two devices. *)
Theorem set_max_memory_none (n_gpus total_memory : Z) (max_memory : option spec_float) :
  MaxMemory.set_max_memory n_gpus total_memory max_memory = (MaxMemory.Returns None, [])
  <-> max_memory = None
      \/ (exists s, max_memory = Some (S754_zero s))
      \/ max_memory = Some float_1_0
      \/ n_gpus <= 1.
Proof.
  unfold MaxMemory.set_max_memory. destruct max_memory as [m|]; [|tauto].
  destruct (MaxMemory.truthy m) eqn:Ht; cbn [andb].
  - destruct (SFeqb m float_1_0) eqn:H1; cbn [negb andb].
    + apply SFeqb_one in H1 as ->. tauto.
    + destruct (Z.ltb_spec 1 n_gpus) as [Hn|Hn]; [|tauto].
      split.
      * destruct (MaxMemory.comprehension _ _ _ _); discriminate.
      * intros [[=]|[(s & [= ->])|[[= ->]|?]]]; [discriminate|discriminate|lia].
  - apply truthy_false in Ht as [s ->]. split; [|reflexivity]. eauto.
Qed.

Lemma comprehension_returns (t m : spec_float) (idx : list Z) (d d' : gmap (Z + str) str) :
  MaxMemory.comprehension t m idx d = MaxMemory.Returns d' ->
  (forall i, i ∈ idx ->
     exists v, MaxMemory.budget t m i = MaxMemory.Returns v /\ d' !! inl i = Some v)
  /\ (forall k, (forall i, k = inl i -> i ∉ idx) -> d' !! k = d !! k).
Proof.
  revert d. induction idx as [|i idx IH]; intros d; cbn [MaxMemory.comprehension].
  - intros [= <-]. split; [|reflexivity]. intros i Hi. inversion Hi.
  - destruct (MaxMemory.budget t m i) as [v|e] eqn:Hb; [|discriminate].
    intros Hrest. destruct (IH _ Hrest) as [Hin Hout]. split.
    + intros j Hj. destruct (decide (j ∈ idx)) as [Hidx|Hidx]; [apply Hin; exact Hidx|].
      apply elem_of_cons in Hj as [->|Hj]; [|contradiction].
      exists v. split; [exact Hb|]. rewrite Hout by congruence.
      apply lookup_insert_eq.
    + intros k Hk. rewrite Hout.
      * apply lookup_insert_ne. intros <-. eapply Hk; [reflexivity|]. left.
      * intros j -> Hj. eapply Hk; [reflexivity|]. right. exact Hj.
Qed.

(** X14: a memory map that is returned has one entry per device and one
    for 'cpu', and nothing else: device 0 gets the floor of 0.6 times the
    share, every other device the floor of the share, each written in
    decimal before "GiB", and 'cpu' gets '400GiB'; two INFO records are
    logged, the second with the map. *)
Theorem set_max_memory_map (n_gpus total_memory : Z) (max_memory : spec_float)
    (d : gmap (Z + str) str) (log : list (level * MaxMemory.message)) :
  MaxMemory.set_max_memory n_gpus total_memory (Some max_memory)
  = (MaxMemory.Returns (Some d), log) ->
  let share :=
    MaxMemory.float64_mul (MaxMemory.int_truediv total_memory (1024 * 1024 * 1024))
      max_memory in
  exists low rest : Z,
    MaxMemory.math_floor (MaxMemory.float64_mul share MaxMemory.float_0_6)
    = MaxMemory.Returns low
    /\ MaxMemory.math_floor share = MaxMemory.Returns rest
    /\ 1 < n_gpus
    /\ d !! inl 0 = Some (str_of_int low ++ lit "GiB")
    /\ (forall i, 0 < i < n_gpus ->
          d !! inl i = Some (str_of_int rest ++ lit "GiB"))
    /\ (forall i, i < 0 \/ n_gpus <= i -> d !! inl i = None)
    /\ (forall s, d !! inr s = if decide (s = lit "cpu") then Some (lit "400GiB") else None)
    /\ log = [(INFO, MaxMemory.InferingMaxMemory); (INFO, MaxMemory.SetMaximumMemory d)].
Proof.
  intros Hrun share. revert Hrun. unfold MaxMemory.set_max_memory.
  destruct (MaxMemory.truthy max_memory && negb (SFeqb max_memory float_1_0)) eqn:Hg;
    cbn [andb]; [|discriminate].
  destruct (Z.ltb_spec 1 n_gpus) as [Hn|Hn]; [|discriminate].
  destruct (MaxMemory.comprehension _ _ _ _) as [d0|e] eqn:Hc; [|discriminate].
  intros [= <- <-].
  destruct (comprehension_returns _ _ _ _ _ Hc) as [Hin Hout].
  destruct (Hin 0 ltac:(apply elem_of_range1; lia)) as (v0 & Hb0 & Hd0).
  destruct (Hin 1 ltac:(apply elem_of_range1; lia)) as (v1 & Hb1 & Hd1).
  unfold MaxMemory.budget in Hb0, Hb1.
  change (0 <? 0) with false in Hb0. change (0 <? 1) with true in Hb1. cbv iota in Hb0, Hb1.
  fold share in Hb0, Hb1.
  destruct (MaxMemory.math_floor (MaxMemory.float64_mul share MaxMemory.float_0_6))
    as [low|] eqn:Hlow; [|discriminate].
  destruct (MaxMemory.math_floor share) as [rest|] eqn:Hrest; [|discriminate].
  injection Hb0 as <-. injection Hb1 as <-.
  exists low, rest. split; [reflexivity|]. split; [reflexivity|]. split; [exact Hn|].
  split; [rewrite lookup_insert_ne by discriminate; exact Hd0|].
  split.
  { intros i Hi. rewrite lookup_insert_ne by discriminate.
    destruct (Hin i ltac:(apply elem_of_range1; lia)) as (v & Hb & Hd).
    unfold MaxMemory.budget in Hb. destruct (Z.ltb_spec 0 i); [|lia].
    fold share in Hb. rewrite Hrest in Hb. injection Hb as <-. exact Hd. }
  split.
  { intros i Hi. rewrite lookup_insert_ne by discriminate. rewrite Hout.
    - apply lookup_empty.
    - intros j [= <-] Hj%elem_of_range1. lia. }
  split; [|reflexivity].
  intros s. destruct (decide (s = lit "cpu")) as [->|Hs].
  - apply lookup_insert_eq.
  - rewrite lookup_insert_ne by congruence. rewrite Hout; [apply lookup_empty|].
    intros j [=].
Qed.

(** Two devices of 80 GiB and a share of one half. *)
Lemma set_max_memory_map_witness :
  exists low rest : Z,
    MaxMemory.math_floor
      (MaxMemory.float64_mul
         (MaxMemory.float64_mul (MaxMemory.int_truediv 85899345920 (1024 * 1024 * 1024))
            (S754_finite false 4503599627370496 (-53)))
         MaxMemory.float_0_6)
    = MaxMemory.Returns low
    /\ MaxMemory.math_floor
         (MaxMemory.float64_mul (MaxMemory.int_truediv 85899345920 (1024 * 1024 * 1024))
            (S754_finite false 4503599627370496 (-53)))
       = MaxMemory.Returns rest
    /\ 1 < 2
    /\ (<[inr (lit "cpu") := lit "400GiB"]>
          (<[inl 1 := lit "40GiB"]> (<[inl 0 := lit "24GiB"]> ∅)) : gmap (Z + str) str)
       !! inl 0 = Some (str_of_int low ++ lit "GiB")
    /\ (forall i, 0 < i < 2 ->
          (<[inr (lit "cpu") := lit "400GiB"]>
             (<[inl 1 := lit "40GiB"]> (<[inl 0 := lit "24GiB"]> ∅)) : gmap (Z + str) str)
          !! inl i = Some (str_of_int rest ++ lit "GiB"))
    /\ (forall i, i < 0 \/ 2 <= i ->
          (<[inr (lit "cpu") := lit "400GiB"]>
             (<[inl 1 := lit "40GiB"]> (<[inl 0 := lit "24GiB"]> ∅)) : gmap (Z + str) str)
          !! inl i = None)
    /\ (forall s,
          (<[inr (lit "cpu") := lit "400GiB"]>
             (<[inl 1 := lit "40GiB"]> (<[inl 0 := lit "24GiB"]> ∅)) : gmap (Z + str) str)
          !! inr s = if decide (s = lit "cpu") then Some (lit "400GiB") else None)
    /\ [(INFO, MaxMemory.InferingMaxMemory);
        (INFO, MaxMemory.SetMaximumMemory
                 (<[inr (lit "cpu") := lit "400GiB"]>
                    (<[inl 1 := lit "40GiB"]> (<[inl 0 := lit "24GiB"]> ∅))))]
       = [(INFO, MaxMemory.InferingMaxMemory);
          (INFO, MaxMemory.SetMaximumMemory
                   (<[inr (lit "cpu") := lit "400GiB"]>
                      (<[inl 1 := lit "40GiB"]> (<[inl 0 := lit "24GiB"]> ∅))))].
Proof.
  apply (set_max_memory_map 2 85899345920 (S754_finite false 4503599627370496 (-53))).
  vm_compute. reflexivity.
Defined.

(** X15: a NaN passed as [max_memory] with two devices or more passes the
    guard, and the call raises ValueError from [math.floor] after the
    first record was logged, whatever the memory of device 0. *)
Theorem set_max_memory_nan (n_gpus total_memory : Z) :
  1 < n_gpus ->
  MaxMemory.set_max_memory n_gpus total_memory (Some S754_nan)
  = (MaxMemory.Raises MaxMemory.ValueError, [(INFO, MaxMemory.InferingMaxMemory)]).
Proof.
  intros Hn. unfold MaxMemory.set_max_memory.
  change (MaxMemory.truthy S754_nan && negb (SFeqb S754_nan float_1_0)) with true.
  destruct (Z.ltb_spec 1 n_gpus); [|lia]. cbn [andb].
  assert (exists idx, range1 n_gpus = 0 :: idx) as [idx ->].
  { rewrite range1_seq. destruct (Z.to_nat n_gpus) as [|k] eqn:Hk; [lia|].
    cbn [seq]. rewrite fmap_cons. eauto. }
  cbn [MaxMemory.comprehension]. unfold MaxMemory.budget.
  change (0 <? 0) with false. cbv iota.
  assert (forall x, MaxMemory.float64_mul x S754_nan = S754_nan) as Hnan
    by (intros [| | |]; reflexivity).
  rewrite Hnan. reflexivity.
Qed.

Lemma set_max_memory_nan_witness :
  MaxMemory.set_max_memory 2 85899345920 (Some S754_nan)
  = (MaxMemory.Raises MaxMemory.ValueError, [(INFO, MaxMemory.InferingMaxMemory)]).
Proof. apply (set_max_memory_nan 2 85899345920). lia. Defined.

(** * [gather_complex_simple_sentences] *)

Lemma for_each_append {A B} (f : A -> B) (xs : list A) (acc : list B) :
  for_each xs (fun acc x => mret (acc ++ [f x])) acc = mret (acc ++ (f <$> xs)).
Proof.
  revert acc. induction xs as [|x xs IH]; intros acc; cbn [for_each].
  - rewrite fmap_nil, app_nil_r. reflexivity.
  - rewrite bind_ret, IH, fmap_cons, <- app_assoc. reflexivity.
Qed.

(** X16: [range(5, 1)] is empty, so no simplification file is read: for
    every content of the files the function returns one record per line
    of "asset.test.orig", with that line under "complex" and an empty list
    under "simple"; it does not raise and does not use its argument. *)
Theorem gather_complex_simple_sentences_simple_empty
    (iter_lines : str -> list str) (split : str) :
  gather_complex_simple_sentences iter_lines split
  = mret ((fun src_line => Item src_line []) <$> iter_lines (lit "asset.test.orig")).
Proof.
  unfold gather_complex_simple_sentences.
  rewrite (for_each_append (fun src_line => Item src_line [])), bind_ret.
  change (range 5 1 1) with (mret (M := Py) (@nil Z)). rewrite bind_ret. reflexivity.
Qed.
